(** * Data validation engine: rule evaluation and audit reconciliation

    A shallow embedding of [nautobot_data_validation_engine/custom_validators.py]:
    the four declarative rule families run by [BaseValidator.clean], the
    audit ruleset life cycle of [AuditRuleset.clean], and the audit result
    ledger written through [AuditRuleset.audit_result].

    Python exceptions are modelled by an error monad over an explicit world
    (the ledger table, the object tables, the operator log and the number of
    clock reads so far).  A raised exception keeps the world it was raised
    in: ledger rows already written stay written (no enclosing transaction
    is part of the source).  What the host decides is a parameter: [str()],
    the clock, the regex and template engines, the validation of a ledger
    row by its model, and the order in which a query without [order_by]
    returns its rows. *)

From Stdlib Require Import QArith Qcanon.
From stdpp Require Import numbers strings gmap list pretty.

(** ** Python values *)

(** The values a model field can hold.  A finite float is represented by the
    rational it denotes (Python compares ints and floats exactly); [VOther]
    is any object that is neither a number nor a string, carried with its
    truth value ([bool(v)]: false for an empty container or a zero
    [Decimal], true for most objects) and its [str()]. *)
Inductive value :=
| VNone
| VBool (b : bool)
| VInt (z : Z)
| VFloat (q : Qc)
| VStr (s : string)
| VOther (truth : bool) (repr : string).

#[global] Instance value_eq_dec : EqDecision value.
Proof. solve_decision. Defined.

(** [isinstance(v, (int, float))]: [bool] is a subclass of [int]. *)
Definition as_number (v : value) : option Qc :=
  match v with
  | VBool b => Some (if b then 1%Qc else 0%Qc)
  | VInt z => Some (Qc_of_Z z)
  | VFloat q => Some q
  | _ => None
  end.

(** Truth value of [if v:]. *)
Definition truthy (v : value) : bool :=
  match v with
  | VNone => false
  | VBool b => b
  | VInt z => negb (Z.eqb z 0)
  | VFloat q => bool_decide (q ≠ 0%Qc)
  | VStr s => bool_decide (s ≠ "")
  | VOther truth _ => truth
  end.

(** [a or b] on an optional text: [None] and the empty string are falsy. *)
Definition or_else (a : option string) (b : string) : string :=
  match a with
  | Some s => if bool_decide (s = "") then b else s
  | None => b
  end.

Definition Qc_ltb (a b : Qc) : bool := bool_decide (a < b)%Qc.

(** ** Model instances *)

Record Instance := {
  app_label : string;
  model_name : string;
  id : Z;
  fields : gmap string value;
  obj_str : string            (* str(obj) *)
}.

(** [ContentType.objects.get_for_model(instance)]. *)
Definition content_type_of (obj : Instance) : string * string :=
  (app_label obj, model_name obj).

(** ** Exceptions *)

(** What a Django [ValidationError] carries: a mapping from attribute to
    messages (insertion ordered) or an unkeyed list of messages. *)
Inductive payload :=
| ErrDict (d : list (string * list string))
| ErrList (l : list string).

Inductive exn :=
| ValidationError (p : payload)
| AuditError (p : payload)            (* subclass of ValidationError *)
| AttributeError (name : string)
| KeyError (key : string)
| MultipleObjectsReturned
| TypeError
| ReError
| NotImplementedError
| OtherError (tag : string).

#[global] Instance payload_eq_dec : EqDecision payload.
Proof. solve_decision. Defined.
#[global] Instance exn_eq_dec : EqDecision exn.
Proof. solve_decision. Defined.

Inductive Result (A : Type) :=
| Ok (a : A)
| Raise (e : exn).
Arguments Ok {A} a.
Arguments Raise {A} e.

(** [ex.message_dict]: an [AttributeError] unless the error is dict based. *)
Definition message_dict (p : payload) : Result (list (string * list string)) :=
  match p with
  | ErrDict d => Ok d
  | ErrList _ => Raise (AttributeError "error_dict")
  end.

(** [ex.messages]: every message, the dict's value lists concatenated. *)
Definition messages (p : payload) : list string :=
  match p with
  | ErrDict d => concat (map snd d)
  | ErrList l => l
  end.

(** ** The audit result ledger *)

Record AuditResult := {
  audit_class_name : string;
  content_type : string * string;
  object_id : Z;
  validated_attribute : string;
  last_validation_date : Z;
  validated_attribute_value : option string;
  message : string;
  valid : bool
}.

#[global] Instance AuditResult_eq_dec : EqDecision AuditResult.
Proof. solve_decision. Defined.

Definition LedgerKey : Type := string * (string * string) * Z * string.

Definition row_key (r : AuditResult) : LedgerKey :=
  (audit_class_name r, content_type r, object_id r, validated_attribute r).

Definition has_key (k : LedgerKey) (r : AuditResult) : bool :=
  bool_decide (row_key r = k).

(** ** The world *)

Record World := {
  ledger : list AuditResult;     (* the AuditResult table, in row order *)
  objects : list Instance;       (* the rows of the model tables *)
  log : list string;             (* LOGGER output *)
  ticks : nat                    (* calls of timezone.now() so far *)
}.

Definition set_ledger (l : list AuditResult) (w : World) : World :=
  {| ledger := l; objects := objects w; log := log w; ticks := ticks w |}.

Definition M (A : Type) : Type := World → World * Result A.

Definition ret {A} (a : A) : M A := λ w, (w, Ok a).
Definition raise {A} (e : exn) : M A := λ w, (w, Raise e).
Definition bind {A B} (c : M A) (k : A → M B) : M B :=
  λ w, match c w with
       | (w', Ok a) => k a w'
       | (w', Raise e) => (w', Raise e)
       end.
Definition lift {A} (r : Result A) : M A := λ w, (w, r).

Notation "'let*' x ':=' c 'in' k" := (bind c (λ x, k))
  (at level 10, x binder, c at level 100, k at level 200,
   format "'[v' 'let*'  x  ':='  c  'in' '/' k ']'").

(** [for x in xs: body(x)] *)
Fixpoint for_each {A} (xs : list A) (body : A → M unit) : M unit :=
  match xs with
  | [] => ret tt
  | x :: rest => let* _ := body x in for_each rest body
  end.

(** [getattr(obj, name)] *)
Definition getattr (obj : Instance) (name : string) : M value :=
  match fields obj !! name with
  | Some v => ret v
  | None => raise (AttributeError name)
  end.

(** ** Audit rulesets *)

(** An [AuditRuleset] subclass: its class attributes and its [audit]
    method, a procedure over the instance that returns, raises an
    [AuditError], or raises anything else. *)
Record AuditRulesetClass := {
  cls_class_name : option string;   (* class_name: Optional[str] = None *)
  cls_name : string;                (* __class__.__name__ *)
  cls_model : string;               (* model: "app_label.model_name" *)
  enforce : bool;
  audit : Instance → Result unit
}.

(** A ruleset instance, as [__init__] leaves it. *)
Record AuditRuleset := {
  cls : AuditRulesetClass;
  context_object : Instance;        (* self.context["object"] *)
  class_name : string;
  result_date : Z
}.

(** ** Validation rules *)

(** What the four rule models share: the target field, the optional custom
    message, and [str(rule)]. *)
Record RuleBase := {
  field : string;
  error_message : option string;
  rule_str : string
}.

Record RegularExpressionValidationRule := {
  regex_base :> RuleBase;
  regular_expression : string;
  context_processing : bool
}.

Record MinMaxValidationRule := {
  minmax_base :> RuleBase;
  min : option Qc;
  max : option Qc
}.

Record RequiredValidationRule := {
  required_base :> RuleBase
}.

Record UniqueValidationRule := {
  unique_base :> RuleBase;
  max_instances : Z
}.

(** The rule managers' [get_for_model(model)], one query per rule kind. *)
Record RuleStore := {
  regex_rules_for : string → list RegularExpressionValidationRule;
  minmax_rules_for : string → list MinMaxValidationRule;
  required_rules_for : string → list RequiredValidationRule;
  unique_rules_for : string → list UniqueValidationRule
}.

(** A class registered in [registry["plugin_custom_validators"]]. *)
Inductive validator :=
| AuditValidator (c : AuditRulesetClass)
| PlainValidator (model : string).

(** A git repository record: the content kinds it provides and what
    importing its [custom_validators.py] gives, the module's
    [custom_validators] attribute when it has one. *)
Record GitRepository := {
  provided_contents : list string;
  imported : Result (option (list AuditRulesetClass))
}.

Record Env := {
  rule_store : RuleStore;
  registry : list (string * list validator);
  git_repositories : list GitRepository
}.

(** What [AuditRuleset.__init__] builds, given the time it reads. *)
Definition ruleset_instance (c : AuditRulesetClass) (obj : Instance) (now : Z)
    : AuditRuleset :=
  {| cls := c; context_object := obj;
     class_name := or_else (cls_class_name c) (cls_name c);
     result_date := now |}.

Section Engine.

(** [str()] on field values and [timezone.now()] at its n-th call belong to
    the host; everything below holds whatever they are. *)
Variable py_str : value → string.
Variable clock : nat → Z.

(** [AuditResult.full_clean()], the validation of a ledger row by its own
    model (field constraints, uniqueness against the table), is the host's:
    [None] when the row is accepted, the payload of the [ValidationError]
    it raises otherwise. *)
Variable row_full_clean : AuditResult → list AuditResult → option payload.

(** A queryset without [order_by] returns the selected rows in an order
    the database chooses: some rearrangement of the rows, the host's. *)
Variable query_order : list AuditResult → list AuditResult.

(** [re.match(pattern, text)] ([None] when the pattern does not compile),
    [render_jinja2(template, context)] on the context of the object
    ([None] when rendering raises) and [validate_regex] are the host's. *)
Variable re_match : string → string → option bool.
Variable render_jinja2 : string → Instance → option string.
Variable validate_regex : string → bool.

Definition timezone_now : M Z :=
  λ w, ({| ledger := ledger w; objects := objects w; log := log w;
           ticks := S (ticks w) |}, Ok (clock (ticks w))).

Definition AuditRuleset_init (c : AuditRulesetClass) (obj : Instance) : M AuditRuleset :=
  let* now := timezone_now in
  ret (ruleset_instance c obj now).

(** [AuditResult.objects.update_or_create]: fetch the
    row with this key; none: insert one; one: overwrite the four default
    columns; several: [get] raises.  The row as it now stands is what the
    call returns. *)
Definition update_or_create (k : LedgerKey)
    (date : Z) (attribute_value : option string) (msg : string) (ok : bool)
    : M AuditResult :=
  λ w,
    let '(cn, ct, oid, attr) := k in
    let fresh := {| audit_class_name := cn; content_type := ct; object_id := oid;
                    validated_attribute := attr; last_validation_date := date;
                    validated_attribute_value := attribute_value;
                    message := msg; valid := ok |} in
    match filter (λ r, has_key k r = true) (ledger w) with
    | [] => (set_ledger (ledger w ++ [fresh]) w, Ok fresh)
    | [_] => (set_ledger (map (λ r, if has_key k r then fresh else r) (ledger w)) w, Ok fresh)
    | _ => (w, Raise MultipleObjectsReturned)
    end.

(** [result.validated_save()]: [full_clean()], then [save()].  A row the
    model rejects raises its [ValidationError], after [update_or_create]
    has stored it; an accepted row is saved again with the columns it
    already has, which leaves the table as it is. *)
Definition validated_save (result : AuditResult) : M unit :=
  λ w,
    match row_full_clean result (ledger w) with
    | Some errors => (w, Raise (ValidationError errors))
    | None => (w, Ok tt)
    end.

Definition self_key (self : AuditRuleset) (attribute : string) : LedgerKey :=
  (class_name self, content_type_of (context_object self),
   id (context_object self), attribute).

(** [AuditRuleset.audit_result(message, attribute=None, valid=True)] *)
Definition audit_result (self : AuditRuleset)
    (msg : string) (attribute : option string) (ok : bool) : M unit :=
  let instance := context_object self in
  let* av :=
    match attribute with
    | Some a =>
        if bool_decide (a = "") then ret (VNone, "all")
        else let* v := getattr instance a in ret (v, a)
    | None => ret (VNone, "all")
    end in
  let* result :=
    update_or_create (self_key self av.2) (result_date self)
      (if truthy av.1 then Some (py_str av.1) else None) msg ok in
  validated_save result.

(** The query of [mark_existing_attributes_as_valid]: the attributes of the
    ledger rows of this ruleset and instance, but for ["all"] and the
    excluded ones, in the order the database returns the rows. *)
Definition existing_attributes (self : AuditRuleset) (exclude_attributes : list string)
    : M (list string) :=
  λ w,
    (w, Ok (map validated_attribute
              (query_order
                 (filter (λ r,
                      audit_class_name r = class_name self
                      ∧ content_type r = content_type_of (context_object self)
                      ∧ object_id r = id (context_object self)
                      ∧ validated_attribute r ∉ "all" :: exclude_attributes)
                    (ledger w))))).

(** [AuditRuleset.mark_existing_attributes_as_valid(exclude_attributes)] *)
Definition mark_existing_attributes_as_valid (self : AuditRuleset)
    (exclude_attributes : list string) : M unit :=
  let* attributes := existing_attributes self exclude_attributes in
  for_each attributes (λ attribute,
    audit_result self (attribute +:+ " is valid.") (Some attribute) true).

(** The loop over [ex.message_dict.items()].  [exclude_attributes] is a
    local list the loop appends to; what was appended before an exception
    is still there for the [finally] suite, so the list is returned in
    either case. *)
Fixpoint flag_attributes (self : AuditRuleset) (items : list (string * list string))
    (exclude_attributes : list string) (w : World)
    : World * list string * Result unit :=
  match items with
  | [] => (w, exclude_attributes, Ok tt)
  | (attribute, msgs) :: rest =>
      let exclude_attributes := exclude_attributes ++ [attribute] in
      match for_each msgs (λ m, audit_result self m (Some attribute) false) w with
      | (w', Ok _) => flag_attributes self rest exclude_attributes w'
      | (w', Raise e) => (w', exclude_attributes, Raise e)
      end
  end.

(** The [try]/[except AttributeError]/[finally] statement that opens the
    [except AuditError as ex] suite of [AuditRuleset.clean]. *)
Definition record_failure (self : AuditRuleset) (ex : payload) : M unit :=
  λ w,
    (* try: for attribute, messages in ex.message_dict.items(): ... *)
    let '(w1, exclude_attributes, r1) :=
      match message_dict ex with
      | Ok d => flag_attributes self d [] w
      | Raise e => (w, [], Raise e)
      end in
    (* except AttributeError: for message in ex.messages: ... *)
    let '(w2, r2) :=
      match r1 with
      | Raise (AttributeError _) =>
          for_each (messages ex) (λ m, audit_result self m None false) w1
      | _ => (w1, r1)
      end in
    (* finally: *)
    match (let* _ := mark_existing_attributes_as_valid self exclude_attributes in
           audit_result self (obj_str (context_object self) +:+ " is not valid") None false) w2
    with
    | (w3, Raise e) => (w3, Raise e)
    | (w3, Ok _) => (w3, r2)
    end.

(** The [except AuditError as ex] suite: the statement above, then
    [if self.enforce: raise ex]. *)
Definition on_audit_error (self : AuditRuleset) (ex : payload) : M unit :=
  let* _ := record_failure self ex in
  if enforce (cls self) then raise (AuditError ex) else ret tt.

(** [AuditRuleset.clean] *)
Definition AuditRuleset_clean (self : AuditRuleset) : M unit :=
  λ w,
    match (let* _ := lift (audit (cls self) (context_object self)) in
           let* _ := mark_existing_attributes_as_valid self [] in
           audit_result self (obj_str (context_object self) +:+ " is valid") None true) w
    with
    | (w1, Raise (AuditError ex)) => on_audit_error self ex w1
    | out => out
    end.

(** [audit_class(obj).clean()] *)
Definition run_ruleset (c : AuditRulesetClass) (obj : Instance) : M unit :=
  let* self := AuditRuleset_init c obj in
  AuditRuleset_clean self.

(** ** The rule families of [BaseValidator.clean] *)

(** [PluginCustomValidator.validation_error({field: message})] raises a
    [ValidationError] built from that one-entry mapping; the source relies
    on it (after a rendering failure no pattern is bound, and the log line
    there says a ValidationError was raised). *)
Definition validation_error (fld : string) (msg : string) : M unit :=
  raise (ValidationError (ErrDict [(fld, [msg])])).

Definition log_exception (line : string) : M unit :=
  λ w, ({| ledger := ledger w; objects := objects w; log := log w ++ [line];
           ticks := ticks w |}, Ok tt).

(** [re.match(pattern, value)] as a truth value.  The pattern is compiled
    before the value is looked at: a pattern that does not compile is a
    [re.error] whatever the value is (whether it compiles does not depend
    on the text, so the empty text serves to ask), and with a pattern that
    compiles a value that is not a string is a [TypeError]. *)
Definition py_re_match (pattern : string) (v : value) : M bool :=
  match v with
  | VStr text =>
      match re_match pattern text with
      | Some b => ret b
      | None => raise ReError
      end
  | _ =>
      match re_match pattern "" with
      | Some _ => raise TypeError
      | None => raise ReError
      end
  end.

(** The [except Exception] suite of the rendering step.  No pattern is bound
    after it; the last line is what would follow, and is never reached. *)
Definition render_failure (rule : RegularExpressionValidationRule) : M string :=
  let* _ := log_exception
      ("There was an error rendering the regular expression in the data validation rule '"
       +:+ rule_str rule +:+ "' and a ValidationError was raised!") in
  let* _ := validation_error (field rule)
      ("There was an error rendering the regular expression in the data validation rule '"
       +:+ rule_str rule
       +:+ "'. Either fix the validation rule or disable it in order to save this data.") in
  raise (OtherError "UnboundLocalError").

(** Body of the loop over the regex rules. *)
Definition regex_rule (obj : Instance) (rule : RegularExpressionValidationRule) : M unit :=
  let* fv := getattr obj (field rule) in
  let field_value := match fv with VNone => VStr "" | v => v end in
  let* pattern :=
    if context_processing rule then
      match render_jinja2 (regular_expression rule) obj with
      | Some rendered =>
          if validate_regex rendered then ret rendered else render_failure rule
      | None => render_failure rule
      end
    else ret (regular_expression rule) in
  let* matched := py_re_match pattern field_value in
  if negb matched then
    validation_error (field rule)
      (or_else (error_message rule) ("Value does not conform to regex: " +:+ pattern))
  else ret tt.

Definition str_bound (b : option Qc) : string :=
  py_str (match b with Some q => VFloat q | None => VNone end).

(** Body of the loop over the min/max rules: one [if]/[elif] chain. *)
Definition minmax_rule (obj : Instance) (rule : MinMaxValidationRule) : M unit :=
  let* field_value := getattr obj (field rule) in
  match field_value with
  | VNone =>
      validation_error (field rule)
        (or_else (error_message rule)
           ("Value does not conform to mix/max validation: min " +:+ str_bound (min rule)
            +:+ ", max " +:+ str_bound (max rule)))
  | _ =>
      match as_number field_value with
      | None =>
          validation_error (field rule)
            ("Unable to validate against min/max rule " +:+ rule_str rule
             +:+ " because the field value is not numeric.")
      | Some x =>
          if match min rule with Some lo => Qc_ltb x lo | None => false end then
            validation_error (field rule)
              (or_else (error_message rule)
                 ("Value is less than minimum value: " +:+ str_bound (min rule)))
          else if match max rule with Some hi => Qc_ltb hi x | None => false end then
            validation_error (field rule)
              (or_else (error_message rule)
                 ("Value is more than maximum value: " +:+ str_bound (max rule)))
          else ret tt
      end
  end.

(** Body of the loop over the required rules. *)
Definition required_rule (obj : Instance) (rule : RequiredValidationRule) : M unit :=
  let* field_value := getattr obj (field rule) in
  if bool_decide (field_value = VNone ∨ field_value = VStr "") then
    validation_error (field rule)
      (or_else (error_message rule) "This field cannot be blank.")
  else ret tt.

(** [obj.__class__._default_manager] filtered on the field: the rows of the
    object's own model whose field holds exactly [v]. *)
Definition matching_rows (obj : Instance) (name : string) (v : value)
    (table : list Instance) : list Instance :=
  filter (λ o, content_type_of o = content_type_of obj ∧ fields o !! name = Some v) table.

(** [....filter(...).count()] *)
Definition count_with_value (obj : Instance) (name : string) (v : value) : M Z :=
  λ w, (w, Ok (Z.of_nat (length (matching_rows obj name v (objects w))))).

(** Django's [pluralize] filter. *)
Definition pluralize (n : Z) : string :=
  if bool_decide (n = 1%Z) then "" else "s".

(** Body of the loop over the unique rules. *)
Definition unique_rule (obj : Instance) (rule : UniqueValidationRule) : M unit :=
  let* field_value := getattr obj (field rule) in
  if bool_decide (field_value ≠ VNone) then
    let* n := count_with_value obj (field rule) field_value in
    if bool_decide (max_instances rule ≤ n)%Z then
      validation_error (field rule)
        (or_else (error_message rule)
           ("There can only be " +:+ py_str (VInt (max_instances rule)) +:+ " instance"
            +:+ pluralize (max_instances rule) +:+ " with this value."))
    else ret tt
  else ret tt.

(** ** Discovery and dispatch *)

(** [is_audit_rule_set(obj)], returning the ruleset class it recognises. *)
Definition is_audit_rule_set (v : validator) : option AuditRulesetClass :=
  match v with
  | AuditValidator c => Some c
  | PlainValidator _ => None
  end.

(** [get_audit_rule_sets_map()] *)
Definition get_audit_rule_sets_map (reg : list (string * list validator))
    : gmap string (list AuditRulesetClass) :=
  foldl (λ audit_rulesets validators,
           foldl (λ audit_rulesets v,
                    match is_audit_rule_set v with
                    | Some c =>
                        <[cls_model c := default [] (audit_rulesets !! cls_model c) ++ [c]]>
                          audit_rulesets
                    | None => audit_rulesets
                    end)
             audit_rulesets validators)
    ∅ (map snd reg).

(** [get_audit_rule_sets_map()[model]]: a plain dict, so a [KeyError] for a
    model without registered rulesets. *)
Definition registered_rulesets (env : Env) (model : string) : M (list AuditRulesetClass) :=
  match get_audit_rule_sets_map (registry env) !! model with
  | Some l => ret l
  | None => raise (KeyError model)
  end.

Definition audit_rulesets_content : string :=
  "nautobot_data_validation_engine.audit_rulesets".

(** [import_python_file_from_git_repo(repo)]: the module, or whatever
    loading it raised. *)
Definition import_python_file_from_git_repo (repo : GitRepository)
    : M (option (list AuditRulesetClass)) :=
  lift (imported repo).

(** Body of the loop over the git repositories that provide audit
    rulesets. *)
Definition repository_rulesets (obj : Instance) (repo : GitRepository) : M unit :=
  let* module := import_python_file_from_git_repo repo in
  match module with
  | Some custom_validators =>
      for_each custom_validators (λ audit_class,
        if bool_decide (app_label obj +:+ "." +:+ model_name obj ≠ cls_model audit_class)
        then ret tt
        else run_ruleset audit_class obj)
  | None => ret tt
  end.

(** The four declarative families, in the order of the source. *)
Definition declarative_rules (env : Env) (model : string) (obj : Instance) : M unit :=
  let* _ := for_each (regex_rules_for (rule_store env) model) (regex_rule obj) in
  let* _ := for_each (minmax_rules_for (rule_store env) model) (minmax_rule obj) in
  let* _ := for_each (required_rules_for (rule_store env) model) (required_rule obj) in
  for_each (unique_rules_for (rule_store env) model) (unique_rule obj).

(** [BaseValidator.clean] for the validator class of [model], on
    [self.context["object"] = obj]. *)
Definition BaseValidator_clean (env : Env) (model : string) (obj : Instance) : M unit :=
  let* _ := declarative_rules env model obj in
  let* audit_classes := registered_rulesets env model in
  let* _ := for_each audit_classes (λ audit_class, run_ruleset audit_class obj) in
  for_each
    (filter (λ repo, audit_rulesets_content ∈ provided_contents repo) (git_repositories env))
    (repository_rulesets obj).

End Engine.

(** * The inspection view *)

(** ** [utils.extract_attribute_errors] *)

(** A value of the error mapping: the message list of an attribute, or the
    bare string that the unkeyed branch assigns to ["all"]. *)
Inductive error_entry :=
| Messages (l : list string)
| Message (s : string).

#[global] Instance error_entry_eq_dec : EqDecision error_entry.
Proof. solve_decision. Defined.

(** [extract_attribute_errors(validation_error)].  [errors] is a
    [defaultdict(list)]: [errors[attribute].append(message)] creates the
    list at its first message. *)
Definition extract_attribute_errors (ex : payload) : gmap string error_entry :=
  match message_dict ex with
  | Ok d =>
      Messages <$>
        foldl (λ errors '(attribute, msgs),
                 foldl (λ errors m,
                          <[attribute := default [] (errors !! attribute) ++ [m]]> errors)
                   errors msgs)
          ∅ d
  | Raise _ =>
      (* except AttributeError: errors["all"] = message *)
      foldl (λ errors m, <["all" := Message m]> errors) ∅ (messages ex)
  end.

(** ** [DataComplianceObjectAPIView] *)

(** The view once [initialize_request] has resolved its model:
    [self.model._meta.label_lower] and [self.rules].  The rules are looked
    up by a function that is not part of the source tree; they are taken as
    given, as classes with an [audit] method. *)
Record DataComplianceObjectAPIView := {
  view_model : string;
  view_rules : list AuditRulesetClass
}.

(** The dictionary [_validate] returns. *)
Record ComplianceReport := {
  report_model : string;
  report_id : Z;
  report_valid : bool;
  report_errors : gmap string error_entry
}.

Section Inspection.

Variable clock : nat → Z.

(** [instance.full_clean] is the host's; it is where the validators of the
    model run. *)
Variable full_clean : Instance → M unit.

(** [_audit(auditor)], with [self.compliance_errors] passed in and out.
    [except ValidationError] also catches its subclass [AuditError]. *)
Definition _audit (auditor : M unit) (compliance_errors : gmap string error_entry)
    : M (gmap string error_entry) :=
  λ w,
    match auditor w with
    | (w', Ok _) => (w', Ok compliance_errors)
    | (w', Raise (ValidationError ex)) | (w', Raise (AuditError ex)) =>
        (* self.compliance_errors.update(extract_attribute_errors(ex)) *)
        (w', Ok (extract_attribute_errors ex ∪ compliance_errors))
    | (w', Raise e) => (w', Raise e)
    end.

(** The loop of [_validate] over [self.rules]. *)
Fixpoint audit_rules (rules : list AuditRulesetClass) (instance : Instance)
    (compliance_errors : gmap string error_entry) : M (gmap string error_entry) :=
  match rules with
  | [] => ret compliance_errors
  | rule_class :: rest =>
      let* rule := AuditRuleset_init clock rule_class instance in
      let* compliance_errors :=
        _audit (lift (audit (cls rule) (context_object rule))) compliance_errors in
      audit_rules rest instance compliance_errors
  end.

(** [_validate(instance)] *)
Definition _validate (view : DataComplianceObjectAPIView) (instance : Instance)
    : M ComplianceReport :=
  let* compliance_errors := _audit (full_clean instance) ∅ in
  let* compliance_errors := audit_rules (view_rules view) instance compliance_errors in
  ret {| report_model := view_model view;
         report_id := id instance;
         report_valid := bool_decide (size compliance_errors = 0);
         report_errors := compliance_errors |}.

End Inspection.

(** * Specification vocabulary *)

(** The key column of the table, in row order. *)
Definition keys (l : list AuditResult) : list LedgerKey := row_key <$> l.

(** At most one row per key tuple. *)
Definition unique_keys (l : list AuditResult) : Prop := NoDup (keys l).

(** The row stored under a key, if any. *)
Definition find_row (k : LedgerKey) (l : list AuditResult) : option AuditResult :=
  head (filter (λ r, has_key k r = true) l).

(** The row with key [k] and the given four value columns. *)
Definition mk_row (k : LedgerKey) (date : Z) (v : option string) (msg : string) (ok : bool)
    : AuditResult :=
  {| audit_class_name := k.1.1.1; content_type := k.1.1.2; object_id := k.1.2;
     validated_attribute := k.2; last_validation_date := date;
     validated_attribute_value := v; message := msg; valid := ok |}.

(** What an upsert does to the table: overwrite in place, or append. *)
Definition upsert (fresh : AuditResult) (l : list AuditResult) : list AuditResult :=
  if bool_decide (row_key fresh ∈ keys l)
  then (λ r, if has_key (row_key fresh) r then fresh else r) <$> l
  else l ++ [fresh].

(** The attribute a write lands on: ["all"] for no attribute and for the
    empty name. *)
Definition target (attribute : option string) : string :=
  match attribute with
  | Some a => if bool_decide (a = "") then "all" else a
  | None => "all"
  end.

(** The rows of this ruleset and instance. *)
Definition mine (self : AuditRuleset) (r : AuditResult) : Prop :=
  audit_class_name r = class_name self
  ∧ content_type r = content_type_of (context_object self)
  ∧ object_id r = id (context_object self).

#[global] Instance mine_dec self r : Decision (mine self r).
Proof. unfold mine. apply _. Defined.



(** The rows the sweep selects. *)
Definition swept (self : AuditRuleset) (exclude_attributes : list string)
    (r : AuditResult) : Prop :=
  mine self r ∧ validated_attribute r ∉ "all" :: exclude_attributes.

#[global] Instance swept_dec self excl r : Decision (swept self excl r).
Proof. unfold swept. apply _. Defined.




(** [l'] comes from [l] by upserts: still one row per key, and the keys of
    [l] are still there, in place, followed by the new ones. *)
Definition extends (l l' : list AuditResult) : Prop :=
  unique_keys l' ∧ keys l `prefix_of` keys l'.

(** A computation that keeps the ledger invariant, whether it returns or
    raises. *)
Definition stable {A} (c : M A) : Prop :=
  ∀ w, unique_keys (ledger w) → extends (ledger w) (ledger (c w).1).

(** The violations an outcome reports to the caller, as (attribute, message)
    pairs; unkeyed messages are filed under Django's ["__all__"]. *)
Definition payload_violations (p : payload) : list (string * string) :=
  match p with
  | ErrDict d => d ≫= λ '(a, msgs), (λ m, (a, m)) <$> msgs
  | ErrList l => (λ m, ("__all__", m)) <$> l
  end.

(** The violations of an outcome: those of a raised validation or audit
    error, none otherwise. *)
Definition violations {A} (r : Result A) : list (string * string) :=
  match r with
  | Raise (ValidationError p) | Raise (AuditError p) => payload_violations p
  | _ => []
  end.

(** The outcome of a rule that reports one violation. *)
Definition violation (fld msg : string) : Result unit :=
  Raise (ValidationError (ErrDict [(fld, [msg])])).


(** Not empty, and nothing but white space. *)
Definition whitespace_only (s : string) : Prop :=
  s ≠ "" ∧ Forall (λ c, Ascii.is_space c = true) (String.list_ascii_of_string s).

(** A computation that leaves the ledger, the clock and the object tables
    alone and reports at most one violation. *)
Definition quiet {A} (c : M A) : Prop :=
  ∀ w, ledger (c w).1 = ledger w ∧ ticks (c w).1 = ticks w
       ∧ objects (c w).1 = objects w
       ∧ length (violations (c w).2) ≤ 1.

Section Vocabulary.

Variable py_str : value → string.
Variable clock : nat → Z.
Variable row_full_clean : AuditResult → list AuditResult → option payload.
Variable query_order : list AuditResult → list AuditResult.
Variable render_jinja2 : string → Instance → option string.
Variable validate_regex : string → bool.

(** The stored text of the attribute's current value. *)
Definition stored_value (obj : Instance) (attribute : option string) : option string :=
  match attribute with
  | Some a =>
      if bool_decide (a = "") then None
      else match fields obj !! a with
           | Some v => if truthy v then Some (py_str v) else None
           | None => None
           end
  | None => None
  end.

(** The row a successful [audit_result] call leaves under its key. *)
Definition written_row (self : AuditRuleset) (msg : string) (attribute : option string)
    (ok : bool) : AuditResult :=
  mk_row (self_key self (target attribute)) (result_date self)
    (stored_value (context_object self) attribute) msg ok.




(** A sequence of ruleset runs, each on its own instance; a run that raises
    does not undo its writes, and the next run starts from them. *)
Fixpoint audit_runs (runs : list (AuditRulesetClass * Instance)) (w : World) : World :=
  match runs with
  | [] => w
  | (c, obj) :: rest => audit_runs rest (run_ruleset py_str clock row_full_clean query_order
      c obj w).1
  end.

(** The pattern a regex rule matches with: the rule's own text, or its
    rendering when the rule is context aware and the rendering is a valid
    expression. *)
Definition regex_pattern (obj : Instance) (rule : RegularExpressionValidationRule)
    : option string :=
  if context_processing rule then
    match render_jinja2 (regular_expression rule) obj with
    | Some rendered => if validate_regex rendered then Some rendered else None
    | None => None
    end
  else Some (regular_expression rule).

End Vocabulary.

(** ** Vocabulary for the further properties *)

Section RunVocabulary.

Variable py_str : value → string.



End RunVocabulary.

(** [l'] has one row per key and differs from [l] at most on the keys in
    [P]. *)
Definition changes_only (P : LedgerKey → Prop) (l l' : list AuditResult) : Prop :=
  unique_keys l' ∧ ∀ k, ¬ P k → find_row k l' = find_row k l.

(** A computation that, from a ledger with one row per key, writes keys in
    [P] only, whether it returns or raises. *)
Definition confined {A} (P : LedgerKey → Prop) (c : M A) : Prop :=
  ∀ w, unique_keys (ledger w) → changes_only P (ledger w) (ledger (c w).1).

(** The keys of a ruleset class on an instance. *)
Definition ruleset_keys (c : AuditRulesetClass) (obj : Instance) (k : LedgerKey) : Prop :=
  ∃ a, k = self_key (ruleset_instance c obj 0) a.

(** The keys of an instance, whatever the ruleset. *)
Definition instance_keys (obj : Instance) (k : LedgerKey) : Prop :=
  k.1.1.2 = content_type_of obj ∧ k.1.2 = id obj.

Section FailureVocabulary.

Variable py_str : value → string.

(** What a loop writing a list of messages to one attribute (or, with no
    attribute, to the whole object) leaves: the row of the last message, or
    nothing when there is no message. *)
Definition write_last (self : AuditRuleset) (attribute : option string)
    (msgs : list string) (l : list AuditResult) : list AuditResult :=
  match last msgs with
  | Some m => upsert (written_row py_str self m attribute false) l
  | None => l
  end.

(** The ledger after the loop over the items of a keyed failure, when every
    key names an attribute of the instance. *)
Definition flagged_ledger (self : AuditRuleset) (items : list (string * list string))
    (l : list AuditResult) : list AuditResult :=
  foldl (λ l '(a, msgs), write_last self (Some a) msgs l) l items.



End FailureVocabulary.

(** The audit ruleset classes among the registered validators, in
    registration order. *)
Definition registered_classes (reg : list (string * list validator))
    : list AuditRulesetClass :=
  omap is_audit_rule_set (concat (map snd reg)).

(** Those bound to one model. *)
Definition classes_for (model : string) (reg : list (string * list validator))
    : list AuditRulesetClass :=
  filter (λ c, cls_model c = model) (registered_classes reg).

(** The classes of a module that are bound to the model of an object. *)
Definition matching_classes (obj : Instance) (classes : list AuditRulesetClass)
    : list AuditRulesetClass :=
  filter (λ c, cls_model c = app_label obj +:+ "." +:+ model_name obj) classes.

(** The messages a keyed failure holds for one attribute, in order. *)
Definition messages_for (a : string) (d : list (string * list string)) : list string :=
  concat (snd <$> filter (λ p, p.1 = a) d).

(** What one source does to the error mapping of the inspection: a
    validation error (an audit error is one) puts its extraction on top,
    anything else leaves the mapping as it is. *)
Definition collect (r : Result unit) (errors : gmap string error_entry)
    : gmap string error_entry :=
  match r with
  | Raise (ValidationError ex) | Raise (AuditError ex) =>
      extract_attribute_errors ex ∪ errors
  | _ => errors
  end.

(** The outcomes [_audit] handles: a normal return or a validation error. *)
Definition handled (r : Result unit) : Prop :=
  match r with
  | Ok _ | Raise (ValidationError _) | Raise (AuditError _) => True
  | Raise _ => False
  end.

(** The attributes an outcome reports on. *)
Definition reported (r : Result unit) : gmap string error_entry :=
  collect r ∅.

(** * Example data *)

(** A concrete host: [str()] with floats printed as a fraction, a clock
    that starts at 1000, patterns matched as literal prefixes (what
    [re.match] does for a pattern without metacharacters), templates that
    render to themselves and are always valid. *)
Definition demo_str (v : value) : string :=
  match v with
  | VNone => "None"
  | VBool b => if b then "True" else "False"
  | VInt z => pretty z
  | VFloat q => pretty (Qnum q) +:+ "/" +:+ pretty (Zpos (Qden q))
  | VStr s => s
  | VOther _ repr => repr
  end.

Definition demo_clock (n : nat) : Z := 1000 + Z.of_nat n.

(** A ledger model that accepts every row, and a database that returns
    rows in the order of their insertion. *)
Definition demo_clean (r : AuditResult) (table : list AuditResult) : option payload := None.

Definition demo_order (rows : list AuditResult) : list AuditResult := rows.

Definition demo_match (pattern text : string) : option bool :=
  Some (String.prefix pattern text).

Definition demo_render (template : string) (obj : Instance) : option string :=
  Some template.

Definition demo_validate (pattern : string) : bool := true.

Definition site : Instance :=
  {| app_label := "dcim"; model_name := "site"; id := 1;
     fields := list_to_map [("name", VStr ""); ("status", VStr "retired");
                            ("count", VInt 5); ("asn", VNone); ("code", VStr "X")];
     obj_str := "site-1" |}.

Definition world0 : World :=
  {| ledger := []; objects := [site]; log := []; ticks := 0 |}.

(** A ruleset class on sites whose audit always ends in [outcome]. *)
Definition site_audit (outcome : Result unit) (enforced : bool) : AuditRulesetClass :=
  {| cls_class_name := None; cls_name := "SiteAudit"; cls_model := "dcim.site";
     enforce := enforced; audit := λ _, outcome |}.

Definition flags_name_and_status : Result unit :=
  Raise (AuditError (ErrDict [("name", ["bad name"]); ("status", ["bad status"])])).

Definition flags_name : Result unit :=
  Raise (AuditError (ErrDict [("name", ["bad name"])])).

Definition flags_unkeyed : Result unit :=
  Raise (AuditError (ErrList ["bad"; "worse"])).

(** The world after a first run that flagged [name] and [status]. *)
Definition world1 : World :=
  (run_ruleset demo_str demo_clock demo_clean demo_order
      (site_audit flags_name_and_status false) site world0).1.

Definition count_range : MinMaxValidationRule :=
  {| minmax_base := {| field := "count"; error_message := None; rule_str := "count range" |};
     min := Some (Qc_of_Z 10); max := Some (Qc_of_Z 1) |}.

Definition name_pattern : RegularExpressionValidationRule :=
  {| regex_base := {| field := "name"; error_message := None; rule_str := "name pattern" |};
     regular_expression := "site-"; context_processing := false |}.

Definition asn_pattern : RegularExpressionValidationRule :=
  {| regex_base := {| field := "asn"; error_message := None; rule_str := "asn pattern" |};
     regular_expression := "AS"; context_processing := true |}.

Definition name_required : RequiredValidationRule :=
  {| required_base := {| field := "name"; error_message := None; rule_str := "name required" |} |}.

Definition code_unique : UniqueValidationRule :=
  {| unique_base := {| field := "code"; error_message := None; rule_str := "code unique" |};
     max_instances := 1 |}.

(** A rule store with a regex rule and a required rule on the same field. *)
Definition demo_env : Env :=
  {| rule_store :=
       {| regex_rules_for := λ _, [name_pattern];
          minmax_rules_for := λ _, [];
          required_rules_for := λ _, [name_required];
          unique_rules_for := λ _, [] |};
     registry := [("dcim.site", [AuditValidator (site_audit (Ok tt) false)])];
     git_repositories := [] |}.

(** ** Example data for the further properties *)

(** A second ruleset class on sites. *)
Definition other_audit (outcome : Result unit) : AuditRulesetClass :=
  {| cls_class_name := Some "NamingAudit"; cls_name := "OtherAudit";
     cls_model := "dcim.site"; enforce := false; audit := λ _, outcome |}.

(** Another instance of the same model. *)
Definition site2 : Instance :=
  {| app_label := "dcim"; model_name := "site"; id := 2;
     fields := list_to_map [("name", VStr "site-2"); ("status", VStr "active");
                            ("count", VInt 0); ("asn", VNone); ("code", VStr "Y")];
     obj_str := "site-2" |}.

(** The ledger after runs of two rulesets on two instances. *)
Definition world_mixed : World :=
  (run_ruleset demo_str demo_clock demo_clean demo_order (site_audit flags_name false) site2
     (run_ruleset demo_str demo_clock demo_clean demo_order
         (other_audit flags_name) site world1).1).1.





(** A template engine that always raises. *)
Definition failing_render (template : string) (obj : Instance) : option string := None.

Definition count_limits : MinMaxValidationRule :=
  {| minmax_base := {| field := "count"; error_message := None; rule_str := "count limits" |};
     min := Some (Qc_of_Z 1); max := Some (Qc_of_Z 10) |}.

(** A rule store without rules and a registry without audit rulesets. *)
Definition plain_env : Env :=
  {| rule_store :=
       {| regex_rules_for := λ _, []; minmax_rules_for := λ _, [];
          required_rules_for := λ _, []; unique_rules_for := λ _, [] |};
     registry := [("dcim.site", [PlainValidator "dcim.site"])];
     git_repositories := [] |}.

(** A repository whose module has a ruleset for sites and one for devices. *)
Definition device_audit : AuditRulesetClass :=
  {| cls_class_name := None; cls_name := "DeviceAudit"; cls_model := "dcim.device";
     enforce := true; audit := λ _, flags_name |}.

Definition demo_repository : GitRepository :=
  {| provided_contents := [audit_rulesets_content];
     imported := Ok (Some [device_audit; site_audit (Ok tt) false]) |}.

(** [full_clean] as the pass of the example environment. *)
Definition demo_full_clean (obj : Instance) : M unit :=
  BaseValidator_clean demo_str demo_clock demo_clean demo_order demo_match demo_render demo_validate
    demo_env "dcim.site" obj.

(** A view with two rules that both report on [name]. *)
Definition demo_view : DataComplianceObjectAPIView :=
  {| view_model := "dcim.site";
     view_rules := [site_audit flags_name false;
                    site_audit (Raise (AuditError (ErrDict [("name", ["worse name"])]))) false;
                    site_audit (Raise (AuditError (ErrList []))) false] |}.

(** A view whose second rule divides by zero. *)
Definition broken_view : DataComplianceObjectAPIView :=
  {| view_model := "dcim.site";
     view_rules := [site_audit flags_name false;
                    site_audit (Raise (OtherError "ZeroDivisionError")) false;
                    site_audit flags_unkeyed false] |}.

(** A registry with two rulesets for sites, the first of which fails, and
    no declarative rule. *)
Definition two_rulesets_env (first_enforced : bool) : Env :=
  {| rule_store :=
       {| regex_rules_for := λ _, []; minmax_rules_for := λ _, [];
          required_rules_for := λ _, []; unique_rules_for := λ _, [] |};
     registry := [("dcim.site", [AuditValidator (site_audit flags_name first_enforced);
                                 AuditValidator (other_audit (Ok tt))])];
     git_repositories := [] |}.

(** ** An attribute that goes away *)








(** * Ledger theory *)

Lemma has_key_true k r : has_key k r = true ↔ row_key r = k.
Proof. unfold has_key. apply bool_decide_eq_true. Qed.

Lemma row_key_mk_row k d v m ok : row_key (mk_row k d v m ok) = k.
Proof. by destruct k as [[[cn ct] oid] attr]. Qed.

Lemma filter_key_absent k l :
  k ∉ keys l → filter (λ r, has_key k r = true) l = [].
Proof.
  induction l as [|r l IH]; [done|].
  intros Hk. rewrite filter_cons. case_decide as Hr.
  - exfalso. apply Hk. apply has_key_true in Hr. subst k. apply list_elem_of_here.
  - apply IH. intros Hin. apply Hk. by apply list_elem_of_further.
Qed.

Lemma filter_key_present k l :
  unique_keys l → k ∈ keys l →
  ∃ r, filter (λ r, has_key k r = true) l = [r] ∧ row_key r = k ∧ r ∈ l.
Proof.
  unfold unique_keys. induction l as [|r l IH]; intros Hnd Hin.
  - by apply elem_of_nil in Hin.
  - cbn in Hnd. apply NoDup_cons in Hnd as [Hr Hnd].
    rewrite filter_cons. case_decide as Hk.
    + apply has_key_true in Hk. exists r. split; [|split; [done|apply list_elem_of_here]].
      rewrite filter_key_absent; [done|]. by rewrite <- Hk.
    + cbn in Hin. apply elem_of_cons in Hin as [Heq|Hin].
      * exfalso. apply Hk. by apply has_key_true.
      * destruct (IH Hnd Hin) as (r' & Hf & Hk' & Hr').
        exists r'. split; [done|]. split; [done|]. by apply list_elem_of_further.
Qed.


Lemma find_row_Some k l r : find_row k l = Some r → row_key r = k ∧ r ∈ l.
Proof.
  unfold find_row. intros Hh.
  assert (r ∈ filter (λ r, has_key k r = true) l) as Hf.
  { destruct (filter _ l) as [|r' f]; [done|]. cbn in Hh. inversion Hh. apply list_elem_of_here. }
  apply list_elem_of_filter in Hf as [Hk Hr]. split; [by apply has_key_true|done].
Qed.

Lemma find_row_elem l r :
  unique_keys l → r ∈ l → find_row (row_key r) l = Some r.
Proof.
  intros Hnd Hr.
  destruct (filter_key_present (row_key r) l Hnd) as (r' & Hf & Hk & Hr').
  { unfold keys. apply list_elem_of_fmap. eauto. }
  unfold find_row. rewrite Hf. cbn. f_equal.
  unfold unique_keys, keys in Hnd.
  apply list_elem_of_lookup in Hr as [i Hi]. apply list_elem_of_lookup in Hr' as [j Hj].
  assert (i = j) as ->.
  { eapply NoDup_lookup; [exact Hnd| |]; rewrite list_lookup_fmap.
    - by rewrite Hi.
    - rewrite Hj. cbn. by rewrite Hk. }
  congruence.
Qed.

Lemma keys_upsert fresh l :
  keys (upsert fresh l) =
    if bool_decide (row_key fresh ∈ keys l) then keys l else keys l ++ [row_key fresh].
Proof.
  unfold upsert. case_bool_decide as Hin.
  - unfold keys. rewrite <- list_fmap_compose. apply list_fmap_ext.
    intros i r _. cbn. destruct (has_key (row_key fresh) r) eqn:Hk; [|done].
    apply has_key_true in Hk. done.
  - unfold keys. by rewrite fmap_app.
Qed.

Lemma unique_keys_upsert fresh l : unique_keys l → unique_keys (upsert fresh l).
Proof.
  unfold unique_keys. rewrite keys_upsert. case_bool_decide as Hin; [done|].
  intros Hnd. apply NoDup_app. split; [done|]. split.
  - intros k Hk Hk'. apply list_elem_of_singleton in Hk'. by subst.
  - apply NoDup_singleton.
Qed.

Lemma find_row_upsert_eq fresh l :
  unique_keys l → find_row (row_key fresh) (upsert fresh l) = Some fresh.
Proof.
  intros Hnd. apply find_row_elem; [by apply unique_keys_upsert|].
  unfold upsert. case_bool_decide as Hin.
  - unfold keys in Hin. apply list_elem_of_fmap in Hin as (r & Hk & Hr).
    apply list_elem_of_fmap. exists r. split; [|done].
    assert (has_key (row_key fresh) r = true) as -> by (by apply has_key_true). done.
  - apply elem_of_app. right. apply list_elem_of_here.
Qed.

Lemma filter_key_upsert_ne fresh l k :
  k ≠ row_key fresh →
  filter (λ r, has_key k r = true) (upsert fresh l) = filter (λ r, has_key k r = true) l.
Proof.
  intros Hne. unfold upsert. case_bool_decide as Hin.
  - induction l as [|r l IH]; [done|]. 
    assert (row_key fresh ∈ keys l → 
      filter (λ r0, has_key k r0 = true) ((λ r0, if has_key (row_key fresh) r0 then fresh else r0) <$> l)
      = filter (λ r0, has_key k r0 = true) l) as IH' by (intros; by apply IH).
    clear IH Hin. rewrite fmap_cons, !filter_cons.
    assert (filter (λ r0, has_key k r0 = true) ((λ r0, if has_key (row_key fresh) r0 then fresh else r0) <$> l)
      = filter (λ r0, has_key k r0 = true) l) as Hrest.
    { clear IH'. induction l as [|r' l IH]; [done|].
      rewrite fmap_cons, !filter_cons, IH.
      destruct (has_key (row_key fresh) r') eqn:Hk.
      - apply has_key_true in Hk. 
        rewrite !decide_False; [done| |].
        + intros H. apply has_key_true in H. congruence.
        + intros H. apply has_key_true in H. congruence.
      - done. }
    rewrite Hrest.
    destruct (has_key (row_key fresh) r) eqn:Hk; [|done].
    apply has_key_true in Hk.
    rewrite !decide_False; [done| |].
    + intros H. apply has_key_true in H. congruence.
    + intros H. apply has_key_true in H. congruence.
  - rewrite filter_app. rewrite filter_cons, decide_False.
    + by rewrite filter_nil, app_nil_r.
    + intros H. apply has_key_true in H. congruence.
Qed.

Lemma find_row_upsert_ne fresh l k :
  k ≠ row_key fresh → find_row k (upsert fresh l) = find_row k l.
Proof. intros Hne. unfold find_row. by rewrite filter_key_upsert_ne. Qed.

(** * The ledger writes of a ruleset *)

Section AuditFacts.

Variable py_str : value → string.
Variable row_full_clean : AuditResult → list AuditResult → option payload.
Variable query_order : list AuditResult → list AuditResult.

(** Whatever order the database picks, a query returns the rows it
    selects, each once. *)
Hypothesis query_order_perm : ∀ l, query_order l ≡ₚ l.

Lemma update_or_create_unique w k d v m ok :
  unique_keys (ledger w) →
  update_or_create k d v m ok w
  = (set_ledger (upsert (mk_row k d v m ok) (ledger w)) w, Ok (mk_row k d v m ok)).
Proof.
  intros Hnd. unfold update_or_create, upsert. rewrite row_key_mk_row.
  destruct k as [[[cn ct] oid] attr]. case_bool_decide as Hin.
  - destruct (filter_key_present _ _ Hnd Hin) as (r & -> & _ & _). done.
  - by rewrite (filter_key_absent _ _ Hin).
Qed.

Lemma update_or_create_unchanged_on_raise w w' k d v m ok e :
  update_or_create k d v m ok w = (w', Raise e) → w' = w ∧ e = MultipleObjectsReturned.
Proof.
  unfold update_or_create. destruct k as [[[cn ct] oid] attr].
  destruct (filter _ (ledger w)) as [|r [|r' f]]; intros [= <- <-]; done.
Qed.

(** One [audit_result] call on a ledger with one row per key, for an
    attribute the instance has: the row is stored, and the outcome is the
    verdict of the model's validation on it. *)
Lemma audit_result_outcome self msg attribute ok w :
  unique_keys (ledger w) →
  (∀ a, attribute = Some a → a ≠ "" → is_Some (fields (context_object self) !! a)) →
  audit_result py_str row_full_clean self msg attribute ok w
  = (set_ledger (upsert (written_row py_str self msg attribute ok) (ledger w)) w,
     match row_full_clean (written_row py_str self msg attribute ok)
             (upsert (written_row py_str self msg attribute ok) (ledger w)) with
     | Some errors => Raise (ValidationError errors)
     | None => Ok tt
     end).
Proof.
  intros Hnd Hattr.
  assert (∀ k d v,
    (let* result := update_or_create k d v msg ok in validated_save row_full_clean result) w
    = (set_ledger (upsert (mk_row k d v msg ok) (ledger w)) w,
       match row_full_clean (mk_row k d v msg ok) (upsert (mk_row k d v msg ok) (ledger w)) with
       | Some errors => Raise (ValidationError errors)
       | None => Ok tt
       end)) as Hwrite.
  { intros k d v. unfold bind. rewrite update_or_create_unique by done.
    unfold validated_save. cbn [ledger set_ledger].
    by destruct (row_full_clean _ _). }
  unfold audit_result, written_row, target, stored_value, bind at 1.
  destruct attribute as [a|].
  - case_bool_decide as Ha.
    + unfold ret at 1. apply Hwrite.
    + destruct (Hattr a eq_refl Ha) as [v Hv]. unfold bind at 1, getattr. rewrite Hv.
      unfold ret at 1 2. apply Hwrite.
  - unfold ret at 1. apply Hwrite.
Qed.


Lemma mine_self_key self r a :
  row_key r = self_key self a → mine self r ∧ validated_attribute r = a.
Proof. unfold row_key, self_key, mine. intros [= -> -> -> ->]. done. Qed.



Lemma audit_result_missing self msg a ok w :
  a ≠ "" → fields (context_object self) !! a = None →
  audit_result py_str row_full_clean self msg (Some a) ok w = (w, Raise (AttributeError a)).
Proof.
  intros Ha Hv. unfold audit_result, bind. rewrite bool_decide_eq_false_2 by done.
  unfold getattr. by rewrite Hv.
Qed.









(** ** The reconciliation sweep *)


















(** ** The failure statement in closed form *)



Lemma unique_keys_write_last self attribute msgs l :
  unique_keys l → unique_keys (write_last py_str self attribute msgs l).
Proof.
  intros Hnd. unfold write_last. destruct (last msgs); [by apply unique_keys_upsert|done].
Qed.

Lemma unique_keys_flagged_ledger self items l :
  unique_keys l → unique_keys (flagged_ledger py_str self items l).
Proof.
  revert l. induction items as [|[a msgs] items IH]; intros l Hnd; [done|].
  cbn. apply IH. by apply unique_keys_write_last.
Qed.










End AuditFacts.

(** * Audit ruleset runs *)

Section AuditRuns.

Variable py_str : value → string.
Variable clock : nat → Z.
Variable row_full_clean : AuditResult → list AuditResult → option payload.
Variable query_order : list AuditResult → list AuditResult.
Hypothesis query_order_perm : ∀ l, query_order l ≡ₚ l.

Lemma run_ruleset_unfold c obj w :
  run_ruleset py_str clock row_full_clean query_order c obj w
  = AuditRuleset_clean py_str row_full_clean query_order (ruleset_instance c obj (clock (ticks w)))
      {| ledger := ledger w; objects := objects w; log := log w; ticks := S (ticks w) |}.
Proof. done. Qed.





(** C8: an exception of the audit logic that is not the structured audit
    failure is not caught: the run ends with that very exception, and the
    ledger is as it was, with no sweep and no whole-object row. *)
Theorem unexpected_exception_propagates c obj e w :
  audit c obj = Raise e →
  (∀ p, e ≠ AuditError p) →
  ∃ w', run_ruleset py_str clock row_full_clean query_order
      c obj w = (w', Raise e) ∧ ledger w' = ledger w.
Proof.
  intros Haudit Hne. rewrite run_ruleset_unfold.
  unfold AuditRuleset_clean, bind, lift. cbn [cls context_object ruleset_instance].
  rewrite Haudit.
  exists {| ledger := ledger w; objects := objects w; log := log w; ticks := S (ticks w) |}.
  split; [|done].
  destruct e; try done. by destruct (Hne p).
Qed.

End AuditRuns.

(** * The ledger invariant *)

Section LedgerInvariant.

Variable py_str : value → string.
Variable clock : nat → Z.
Variable row_full_clean : AuditResult → list AuditResult → option payload.
Variable query_order : list AuditResult → list AuditResult.

Lemma extends_refl l : unique_keys l → extends l l.
Proof. intros Hnd. split; [done|reflexivity]. Qed.

Lemma extends_trans l1 l2 l3 : extends l1 l2 → extends l2 l3 → extends l1 l3.
Proof. intros [_ H12] [Hnd H23]. split; [done|]. by transitivity (keys l2). Qed.

Lemma extends_upsert fresh l : unique_keys l → extends l (upsert fresh l).
Proof.
  intros Hnd. split; [by apply unique_keys_upsert|]. rewrite keys_upsert.
  case_bool_decide; [reflexivity|]. by apply prefix_app_r.
Qed.

Lemma stable_ret {A} (a : A) : stable (ret a).
Proof. intros w Hnd. by apply extends_refl. Qed.

Lemma stable_raise {A} e : stable (@raise A e).
Proof. intros w Hnd. by apply extends_refl. Qed.

Lemma stable_lift {A} (r : Result A) : stable (lift r).
Proof. intros w Hnd. by apply extends_refl. Qed.

Lemma stable_bind {A B} (c : M A) (k : A → M B) :
  stable c → (∀ a, stable (k a)) → stable (bind c k).
Proof.
  intros Hc Hk w Hnd. specialize (Hc w Hnd). unfold bind.
  destruct (c w) as [w1 [a|e]]; cbn in *; [|done].
  eapply extends_trans; [exact Hc|]. apply Hk, Hc.
Qed.

Lemma stable_for_each {A} (xs : list A) (body : A → M unit) :
  (∀ x, stable (body x)) → stable (for_each xs body).
Proof.
  intros Hbody. induction xs as [|x xs IH]; [apply stable_ret|].
  cbn. apply stable_bind; [apply Hbody|]. intros _. apply IH.
Qed.

Lemma stable_getattr obj name : stable (getattr obj name).
Proof. unfold getattr. destruct (fields obj !! name); [apply stable_ret|apply stable_raise]. Qed.

Lemma stable_update_or_create k d v m ok : stable (update_or_create k d v m ok).
Proof.
  intros w Hnd. rewrite update_or_create_unique by done. cbn. by apply extends_upsert.
Qed.

Lemma stable_validated_save result : stable (validated_save row_full_clean result).
Proof.
  intros w Hnd. unfold validated_save.
  destruct (row_full_clean result (ledger w)); by apply extends_refl.
Qed.

Lemma stable_audit_result self m attribute ok :
  stable (audit_result py_str row_full_clean self m attribute ok).
Proof.
  unfold audit_result. apply stable_bind.
  2:{ intros av. apply stable_bind; [apply stable_update_or_create|].
      intros result. apply stable_validated_save. }
  destruct attribute as [a|]; [|apply stable_ret].
  case_bool_decide; [apply stable_ret|].
  apply stable_bind; [apply stable_getattr|]. intros v. apply stable_ret.
Qed.

Lemma stable_mark_existing self excl :
  stable (mark_existing_attributes_as_valid py_str row_full_clean query_order self excl).
Proof.
  unfold mark_existing_attributes_as_valid. apply stable_bind.
  - intros w Hnd. by apply extends_refl.
  - intros attributes. apply stable_for_each. intros a. apply stable_audit_result.
Qed.

Lemma stable_flag_attributes self items excl w :
  unique_keys (ledger w) →
  extends (ledger w) (ledger (flag_attributes py_str row_full_clean self items excl w).1.1).
Proof.
  revert excl w. induction items as [|[a msgs] items IH]; intros excl w Hnd.
  - by apply extends_refl.
  - cbn.
    pose proof (stable_for_each msgs
      (λ m, audit_result py_str row_full_clean self m (Some a) false)
      (λ m, stable_audit_result self m (Some a) false) w Hnd) as Hloop.
    destruct (for_each msgs _ w) as [w1 [[]|e]]; cbn in *; [|done].
    eapply extends_trans; [exact Hloop|]. apply IH, Hloop.
Qed.

Lemma stable_record_failure self ex : stable (record_failure py_str row_full_clean query_order
    self ex).
Proof.
  intros w Hnd. unfold record_failure.
  assert (∃ w1 excl r1,
    match message_dict ex with
    | Ok d => flag_attributes py_str row_full_clean self d [] w
    | Raise e => (w, [], Raise e)
    end = (w1, excl, r1) ∧ extends (ledger w) (ledger w1)) as (w1 & excl & r1 & -> & H1).
  { destruct (message_dict ex) as [d|e].
    - pose proof (stable_flag_attributes self d [] w Hnd) as H.
      destruct (flag_attributes py_str row_full_clean
          self d [] w) as [[w1 excl] r1]. by exists w1, excl, r1.
    - exists w, [], (Raise e). split; [done|by apply extends_refl]. }
  assert (∃ w2 r2,
    match r1 with
    | Raise (AttributeError _) =>
        for_each (messages ex) (λ m, audit_result py_str row_full_clean self m None false) w1
    | _ => (w1, r1)
    end = (w2, r2) ∧ extends (ledger w) (ledger w2)) as (w2 & r2 & -> & H2).
  { assert (∃ w2 r2,
      for_each (messages ex) (λ m, audit_result py_str row_full_clean
          self m None false) w1 = (w2, r2)
      ∧ extends (ledger w) (ledger w2)) as Hloop.
    { pose proof (stable_for_each (messages ex)
        (λ m, audit_result py_str row_full_clean self m None false)
        (λ m, stable_audit_result self m None false) w1 (proj1 H1)) as H.
      destruct (for_each _ _ w1) as [w2 r2]. exists w2, r2. split; [done|].
      by eapply extends_trans. }
    destruct r1 as [[]|e]; [by exists w1, (Ok tt)|].
    destruct e; try (eexists _, _; split; [reflexivity|done]). exact Hloop. }
  pose proof (stable_bind
    (mark_existing_attributes_as_valid py_str row_full_clean query_order self excl)
    (λ _, audit_result py_str row_full_clean self (obj_str (context_object self) +:+ " is not valid")
            None false)
    (stable_mark_existing self excl) (λ _, stable_audit_result self _ None false)
    w2 (proj1 H2)) as H3.
  destruct (bind _ _ w2) as [w3 [[]|e]]; cbn in *; by eapply extends_trans.
Qed.

Lemma stable_clean self : stable (AuditRuleset_clean py_str row_full_clean query_order self).
Proof.
  intros w Hnd. unfold AuditRuleset_clean.
  pose proof (stable_bind (lift (audit (cls self) (context_object self)))
    (λ _, let* _ := mark_existing_attributes_as_valid py_str row_full_clean query_order self [] in
          audit_result py_str row_full_clean self (obj_str (context_object self) +:+ " is valid") None true)
    (stable_lift _)
    (λ _, stable_bind _ _ (stable_mark_existing self [])
            (λ _, stable_audit_result self _ None true)) w Hnd) as Htry.
  destruct (bind _ _ w) as [w1 [[]|e]]; cbn in *; [done|].
  destruct e; try done.
  eapply extends_trans; [exact Htry|].
  apply (stable_bind (record_failure py_str row_full_clean query_order
      self p)); [apply stable_record_failure| |apply Htry].
  intros _. destruct (enforce (cls self)); [apply stable_raise|apply stable_ret].
Qed.

Lemma stable_run_ruleset c obj : stable (run_ruleset py_str clock row_full_clean query_order c obj).
Proof.
  intros w Hnd. rewrite run_ruleset_unfold.
  exact (stable_clean (ruleset_instance c obj (clock (ticks w)))
           {| ledger := ledger w; objects := objects w; log := log w;
              ticks := S (ticks w) |} Hnd).
Qed.

(** C9: the ledger invariant.  After any sequence of ruleset runs the
    ledger has at most one row per key and every key it had is still there
    (nothing is deleted); and a write is an upsert: on a ledger with one row
    per key it succeeds, the key then holds exactly the new timestamp,
    value, message and flag, every other key keeps its row, and the table
    grows by one row only when the key was new. *)
Theorem ledger_one_row_per_key runs w :
  unique_keys (ledger w) →
  (unique_keys (ledger (audit_runs py_str clock row_full_clean query_order runs w))
   ∧ keys (ledger w) `prefix_of` keys (ledger (audit_runs py_str clock row_full_clean query_order
       runs w)))
  ∧ ∀ k date v msg ok,
      ∃ w', update_or_create k date v msg ok w = (w', Ok (mk_row k date v msg ok))
        ∧ find_row k (ledger w') = Some (mk_row k date v msg ok)
        ∧ (∀ k', k' ≠ k → find_row k' (ledger w') = find_row k' (ledger w))
        ∧ length (ledger w')
          = if bool_decide (k ∈ keys (ledger w)) then length (ledger w)
            else S (length (ledger w)).
Proof.
  intros Hnd. split.
  - revert w Hnd. induction runs as [|[c obj] runs IH]; intros w Hnd.
    + by apply extends_refl.
    + cbn. pose proof (stable_run_ruleset c obj w Hnd) as Hrun.
      apply (extends_trans _ _ _ Hrun). apply IH, Hrun.
  - intros k date v msg ok. eexists. split; [by apply update_or_create_unique|].
    cbn [ledger set_ledger]. split; [|split].
    + rewrite <- (row_key_mk_row k date v msg ok) at 1. by apply find_row_upsert_eq.
    + intros k' Hk'. apply find_row_upsert_ne. by rewrite row_key_mk_row.
    + unfold upsert. rewrite row_key_mk_row. case_bool_decide.
      * by rewrite length_fmap.
      * rewrite length_app. cbn. lia.
Qed.

End LedgerInvariant.

(** * The declarative rules *)

Section RuleFacts.

Variable py_str : value → string.
Variable clock : nat → Z.
Variable row_full_clean : AuditResult → list AuditResult → option payload.
Variable query_order : list AuditResult → list AuditResult.
Variable re_match : string → string → option bool.
Variable render_jinja2 : string → Instance → option string.
Variable validate_regex : string → bool.

(** C5: a regex rule on a field whose value is None is applied to the empty
    string, not skipped: its outcome is decided by matching the pattern
    against ""; and for any text, a pattern (raw or rendered) that does not
    match from the start gives a violation with the rule's custom message
    or the generated one that names the pattern. *)
Theorem regex_rule_none_is_empty_string obj (rule : RegularExpressionValidationRule) w pattern :
  regex_pattern render_jinja2 validate_regex obj rule = Some pattern →
  (∀ b, fields obj !! field rule = Some VNone →
        re_match pattern "" = Some b →
        regex_rule re_match render_jinja2 validate_regex obj rule w
        = (w, if b then Ok tt
              else violation (field rule)
                     (or_else (error_message rule)
                        ("Value does not conform to regex: " +:+ pattern))))
  ∧ (∀ text, fields obj !! field rule = Some (VStr text) →
        re_match pattern text = Some false →
        regex_rule re_match render_jinja2 validate_regex obj rule w
        = (w, violation (field rule)
                (or_else (error_message rule)
                   ("Value does not conform to regex: " +:+ pattern)))).
Proof.
  intros Hpat.
  assert ((if context_processing rule
           then match render_jinja2 (regular_expression rule) obj with
                | Some rendered =>
                    if validate_regex rendered then ret rendered
                    else render_failure rule
                | None => render_failure rule
                end
           else ret (regular_expression rule)) w = (w, Ok pattern)) as Hp.
  { unfold regex_pattern in Hpat. destruct (context_processing rule).
    - destruct (render_jinja2 _ obj) as [rendered|]; [|done].
      destruct (validate_regex rendered); [|done]. by injection Hpat as ->.
    - by injection Hpat as ->. }
  split.
  - intros b Hv Hm. unfold regex_rule, bind, getattr. rewrite Hv. unfold ret at 1.
    rewrite Hp. unfold py_re_match. rewrite Hm. by destruct b.
  - intros text Hv Hm. unfold regex_rule, bind, getattr. rewrite Hv. unfold ret at 1.
    rewrite Hp. unfold py_re_match. rewrite Hm. done.
Qed.

(** C6: a required rule reports a violation exactly when the field is None
    or the empty string; 0, False and strings of white space pass. *)
Theorem required_rule_violation_iff obj (rule : RequiredValidationRule) w v :
  fields obj !! field rule = Some v →
  (required_rule obj rule w
   = (w, violation (field rule) (or_else (error_message rule) "This field cannot be blank."))
   ↔ v = VNone ∨ v = VStr "")
  ∧ (¬ (v = VNone ∨ v = VStr "") → required_rule obj rule w = (w, Ok tt))
  ∧ (v = VInt 0 ∨ v = VBool false ∨ (∃ s, v = VStr s ∧ whitespace_only s) →
     required_rule obj rule w = (w, Ok tt)).
Proof.
  intros Hv.
  assert (¬ (v = VNone ∨ v = VStr "") → required_rule obj rule w = (w, Ok tt)) as Hpass.
  { intros Hn. unfold required_rule, bind, getattr. rewrite Hv. unfold ret at 1.
    by rewrite bool_decide_eq_false_2. }
  split; [|split; [done|]].
  - split.
    + intros Hrun. destruct (decide (v = VNone ∨ v = VStr "")) as [|Hn]; [done|].
      rewrite (Hpass Hn) in Hrun. done.
    + intros Hblank. unfold required_rule, bind, getattr. rewrite Hv. unfold ret at 1.
      by rewrite bool_decide_eq_true_2.
  - intros Hcases. apply Hpass. intros [->| ->].
    + destruct Hcases as [?|[?|(s & ? & ?)]]; done.
    + destruct Hcases as [?|[?|(s & [= <-] & Hs & _)]]; done.
Qed.

(** C7: a unique rule reports a violation exactly when the field is not None
    and the rows of the object's model holding that value number at least
    [max_instances]; None never violates; and the count includes the row of
    the object itself when it is in the table. *)
Theorem unique_rule_violation_iff obj (rule : UniqueValidationRule) w v :
  fields obj !! field rule = Some v →
  let n := Z.of_nat (length (matching_rows obj (field rule) v (objects w))) in
  let msg := or_else (error_message rule)
               ("There can only be " +:+ py_str (VInt (max_instances rule)) +:+ " instance"
                +:+ pluralize (max_instances rule) +:+ " with this value.") in
  (unique_rule py_str obj rule w = (w, violation (field rule) msg)
   ↔ v ≠ VNone ∧ (max_instances rule ≤ n)%Z)
  ∧ (¬ (v ≠ VNone ∧ (max_instances rule ≤ n)%Z) → unique_rule py_str obj rule w = (w, Ok tt))
  ∧ (∀ before after, objects w = before ++ obj :: after →
       n = (1 + Z.of_nat (length (matching_rows obj (field rule) v (before ++ after))))%Z).
Proof.
  intros Hv n msg.
  assert (¬ (v ≠ VNone ∧ (max_instances rule ≤ n)%Z) →
          unique_rule py_str obj rule w = (w, Ok tt)) as Hpass.
  { intros Hn. unfold unique_rule, bind, getattr. rewrite Hv. unfold ret at 1.
    case_bool_decide as Hnone; [|done]. unfold count_with_value. fold n.
    rewrite bool_decide_eq_false_2; [done|]. intros Hle. by apply Hn. }
  split; [|split; [done|]].
  - split.
    + intros Hrun. destruct (decide (v ≠ VNone ∧ (max_instances rule ≤ n)%Z)) as [|Hn]; [done|].
      rewrite (Hpass Hn) in Hrun. done.
    + intros [Hnone Hle]. unfold unique_rule, bind, getattr. rewrite Hv. unfold ret at 1.
      rewrite bool_decide_eq_true_2 by done. unfold count_with_value. fold n.
      by rewrite bool_decide_eq_true_2.
  - intros before after Htable. unfold n, matching_rows. rewrite Htable.
    rewrite !filter_app, filter_cons, decide_True by done.
    rewrite !length_app. cbn. lia.
Qed.

(** ** One violation at a time *)

Lemma quiet_ret {A} (a : A) : quiet (ret a).
Proof. intros w. cbn. repeat split; lia. Qed.

Lemma quiet_raise {A} e : length (violations (@Raise unit e)) ≤ 1 → quiet (@raise A e).
Proof. intros He w. cbn. repeat split; try done; by destruct e. Qed.

Lemma quiet_bind {A B} (c : M A) (k : A → M B) :
  quiet c → (∀ a, quiet (k a)) → quiet (bind c k).
Proof.
  intros Hc Hk w. unfold bind. destruct (Hc w) as (Hl & Ht & Ho & Hv).
  destruct (c w) as [w1 [a|e]]; cbn in *.
  - destruct (Hk a w1) as (Hl' & Ht' & Ho' & Hv'). repeat split; congruence.
  - repeat split; try done; by destruct e.
Qed.

Lemma quiet_for_each {A} (xs : list A) (body : A → M unit) :
  (∀ x, quiet (body x)) → quiet (for_each xs body).
Proof.
  intros Hbody. induction xs as [|x xs IH]; [apply quiet_ret|].
  cbn. apply quiet_bind; [apply Hbody|]. intros _. apply IH.
Qed.

Lemma quiet_getattr obj name : quiet (getattr obj name).
Proof.
  unfold getattr. destruct (fields obj !! name); [apply quiet_ret|].
  apply quiet_raise. cbn. lia.
Qed.

Lemma quiet_validation_error fld msg : quiet (validation_error fld msg).
Proof. apply quiet_raise. cbn. lia. Qed.

Lemma quiet_regex_rule obj rule :
  quiet (regex_rule re_match render_jinja2 validate_regex obj rule).
Proof.
  assert (quiet (render_failure rule)) as Hfail.
  { unfold render_failure. apply quiet_bind.
    - intros w. cbn. repeat split; lia.
    - intros _. apply quiet_bind; [apply quiet_validation_error|].
      intros _. apply quiet_raise. cbn. lia. }
  unfold regex_rule. apply quiet_bind; [apply quiet_getattr|]. intros fv.
  apply quiet_bind.
  - destruct (context_processing rule); [|apply quiet_ret].
    destruct (render_jinja2 _ obj) as [rendered|]; [|done].
    destruct (validate_regex rendered); [apply quiet_ret|done].
  - intros pattern. apply quiet_bind.
    + unfold py_re_match.
      destruct fv; destruct (re_match pattern _);
        first [apply quiet_ret | apply quiet_raise; cbn; lia].
    + intros matched. destruct (negb matched); [apply quiet_validation_error|apply quiet_ret].
Qed.

Lemma quiet_minmax_rule obj rule : quiet (minmax_rule py_str obj rule).
Proof.
  unfold minmax_rule. apply quiet_bind; [apply quiet_getattr|]. intros v.
  destruct v; cbn [as_number];
    repeat match goal with
    | |- quiet (validation_error _ _) => apply quiet_validation_error
    | |- quiet (ret _) => apply quiet_ret
    | |- quiet (if ?b then _ else _) => destruct b
    end.
Qed.

Lemma quiet_required_rule obj rule : quiet (required_rule obj rule).
Proof.
  unfold required_rule. apply quiet_bind; [apply quiet_getattr|]. intros v.
  case_bool_decide; [apply quiet_validation_error|apply quiet_ret].
Qed.

Lemma quiet_unique_rule obj rule : quiet (unique_rule py_str obj rule).
Proof.
  unfold unique_rule. apply quiet_bind; [apply quiet_getattr|]. intros v.
  case_bool_decide; [|apply quiet_ret]. apply quiet_bind.
  - intros w. cbn. repeat split; lia.
  - intros n. case_bool_decide; [apply quiet_validation_error|apply quiet_ret].
Qed.

Lemma quiet_declarative_rules env model obj :
  quiet (declarative_rules py_str re_match render_jinja2 validate_regex env model obj).
Proof.
  unfold declarative_rules.
  repeat (apply quiet_bind; [|intros _]); apply quiet_for_each; intros rule.
  - apply quiet_regex_rule.
  - apply quiet_minmax_rule.
  - apply quiet_required_rule.
  - apply quiet_unique_rule.
Qed.


(** C1, as the code has it: on a numeric field value the checks of a
    min/max rule are one chain.  A value below the configured min is a
    violation; a value above the configured max is a violation when it is
    not below a configured min; and one rule reports at most one violation
    in a pass, so a value below min and above max yields the min violation
    only. *)
Theorem minmax_rule_one_chain obj (rule : MinMaxValidationRule) w v x :
  fields obj !! field rule = Some v →
  as_number v = Some x →
  (∀ lo, min rule = Some lo → (x < lo)%Qc →
     minmax_rule py_str obj rule w
     = (w, violation (field rule)
             (or_else (error_message rule)
                ("Value is less than minimum value: " +:+ str_bound py_str (min rule)))))
  ∧ (∀ hi, max rule = Some hi → (hi < x)%Qc →
       (∀ lo, min rule = Some lo → ¬ (x < lo)%Qc) →
     minmax_rule py_str obj rule w
     = (w, violation (field rule)
             (or_else (error_message rule)
                ("Value is more than maximum value: " +:+ str_bound py_str (max rule)))))
  ∧ length (violations (minmax_rule py_str obj rule w).2) ≤ 1.
Proof.
  intros Hv Hx.
  assert (minmax_rule py_str obj rule w
    = (if match min rule with Some lo => Qc_ltb x lo | None => false end then
         validation_error (field rule)
           (or_else (error_message rule)
              ("Value is less than minimum value: " +:+ str_bound py_str (min rule)))
       else if match max rule with Some hi => Qc_ltb hi x | None => false end then
         validation_error (field rule)
           (or_else (error_message rule)
              ("Value is more than maximum value: " +:+ str_bound py_str (max rule)))
       else ret tt) w) as Hrun.
  { unfold minmax_rule, bind, getattr. rewrite Hv. unfold ret at 1.
    destruct v; try done; by rewrite Hx. }
  split; [|split].
  - intros lo Hlo Hlt. rewrite Hrun, Hlo. unfold Qc_ltb.
    by rewrite bool_decide_eq_true_2.
  - intros hi Hhi Hlt Hmin. rewrite Hrun, Hhi. unfold Qc_ltb.
    rewrite (bool_decide_eq_true_2 (hi < x)%Qc) by done.
    destruct (min rule) as [lo|]; [|done].
    by rewrite bool_decide_eq_false_2 by (by apply Hmin).
  - apply quiet_minmax_rule.
Qed.


End RuleFacts.

(** * Passing runs *)

Section PassingRuns.

Variable py_str : value → string.
Variable row_full_clean : AuditResult → list AuditResult → option payload.
Variable query_order : list AuditResult → list AuditResult.
Hypothesis query_order_perm : ∀ l, query_order l ≡ₚ l.











End PassingRuns.

(** * What a run leaves alone *)

Section Isolation.

Variable py_str : value → string.
Variable clock : nat → Z.
Variable row_full_clean : AuditResult → list AuditResult → option payload.
Variable query_order : list AuditResult → list AuditResult.
Variable re_match : string → string → option bool.
Variable render_jinja2 : string → Instance → option string.
Variable validate_regex : string → bool.

Lemma changes_only_refl P l : unique_keys l → changes_only P l l.
Proof. intros Hnd. by split. Qed.

Lemma changes_only_trans P l1 l2 l3 :
  changes_only P l1 l2 → changes_only P l2 l3 → changes_only P l1 l3.
Proof.
  intros [_ H12] [Hnd H23]. split; [done|]. intros k Hk.
  by rewrite H23, H12.
Qed.

Lemma confined_same {A} P (c : M A) :
  (∀ w, ledger (c w).1 = ledger w) → confined P c.
Proof. intros Hc w Hnd. rewrite Hc. by apply changes_only_refl. Qed.

Lemma confined_ret {A} P (a : A) : confined P (ret a).
Proof. by apply confined_same. Qed.

Lemma confined_raise {A} P e : confined P (@raise A e).
Proof. by apply confined_same. Qed.

Lemma confined_lift {A} P (r : Result A) : confined P (lift r).
Proof. by apply confined_same. Qed.

Lemma confined_bind {A B} P (c : M A) (k : A → M B) :
  confined P c → (∀ a, confined P (k a)) → confined P (bind c k).
Proof.
  intros Hc Hk w Hnd. specialize (Hc w Hnd). unfold bind.
  destruct (c w) as [w1 [a|e]]; cbn in *; [|done].
  eapply changes_only_trans; [exact Hc|]. apply Hk, Hc.
Qed.

Lemma confined_for_each {A} P (xs : list A) (body : A → M unit) :
  (∀ x, confined P (body x)) → confined P (for_each xs body).
Proof.
  intros Hbody. induction xs as [|x xs IH]; [apply confined_ret|].
  cbn. apply confined_bind; [apply Hbody|]. intros _. apply IH.
Qed.

Lemma confined_getattr P obj name : confined P (getattr obj name).
Proof.
  unfold getattr. destruct (fields obj !! name); [apply confined_ret|apply confined_raise].
Qed.

Lemma confined_update_or_create (P : LedgerKey → Prop) k d v m ok :
  P k → confined P (update_or_create k d v m ok).
Proof.
  intros HP w Hnd. rewrite update_or_create_unique by done. cbn. split.
  - by apply unique_keys_upsert.
  - intros k' Hk'. apply find_row_upsert_ne. rewrite row_key_mk_row. by intros ->.
Qed.

Lemma confined_audit_result (P : LedgerKey → Prop) self m attribute ok :
  (∀ a, P (self_key self a)) → confined P (audit_result py_str row_full_clean self m attribute ok).
Proof.
  intros HP. unfold audit_result. apply confined_bind.
  2:{ intros av. apply confined_bind; [by apply confined_update_or_create|].
      intros result. apply confined_same. intros w. unfold validated_save.
      by destruct (row_full_clean result (ledger w)). }
  destruct attribute as [a|]; [|apply confined_ret].
  case_bool_decide; [apply confined_ret|].
  apply confined_bind; [apply confined_getattr|]. intros v. apply confined_ret.
Qed.

Lemma confined_mark_existing (P : LedgerKey → Prop) self excl :
  (∀ a, P (self_key self a)) →
  confined P (mark_existing_attributes_as_valid py_str row_full_clean query_order self excl).
Proof.
  intros HP. unfold mark_existing_attributes_as_valid. apply confined_bind.
  - by apply confined_same.
  - intros attributes. apply confined_for_each. intros a. by apply confined_audit_result.
Qed.

Lemma confined_flag_attributes (P : LedgerKey → Prop) self items excl w :
  (∀ a, P (self_key self a)) →
  unique_keys (ledger w) →
  changes_only P (ledger w) (ledger (flag_attributes py_str row_full_clean self items excl w).1.1).
Proof.
  intros HP. revert excl w. induction items as [|[a msgs] items IH]; intros excl w Hnd.
  - by apply changes_only_refl.
  - cbn.
    pose proof (confined_for_each P msgs
      (λ m, audit_result py_str row_full_clean self m (Some a) false)
      (λ m, confined_audit_result P self m (Some a) false HP) w Hnd) as Hloop.
    destruct (for_each msgs _ w) as [w1 [[]|e]]; cbn in *; [|done].
    eapply changes_only_trans; [exact Hloop|]. apply IH, Hloop.
Qed.

Lemma confined_record_failure (P : LedgerKey → Prop) self ex :
  (∀ a, P (self_key self a)) → confined P (record_failure py_str row_full_clean query_order
      self ex).
Proof.
  intros HP w Hnd. unfold record_failure.
  assert (∃ w1 excl r1,
    match message_dict ex with
    | Ok d => flag_attributes py_str row_full_clean self d [] w
    | Raise e => (w, [], Raise e)
    end = (w1, excl, r1) ∧ changes_only P (ledger w) (ledger w1))
    as (w1 & excl & r1 & -> & H1).
  { destruct (message_dict ex) as [d|e].
    - pose proof (confined_flag_attributes P self d [] w HP Hnd) as H.
      destruct (flag_attributes py_str row_full_clean
          self d [] w) as [[w1 excl] r1]. by exists w1, excl, r1.
    - exists w, [], (Raise e). split; [done|by apply changes_only_refl]. }
  assert (∃ w2 r2,
    match r1 with
    | Raise (AttributeError _) =>
        for_each (messages ex) (λ m, audit_result py_str row_full_clean self m None false) w1
    | _ => (w1, r1)
    end = (w2, r2) ∧ changes_only P (ledger w) (ledger w2)) as (w2 & r2 & -> & H2).
  { assert (∃ w2 r2,
      for_each (messages ex) (λ m, audit_result py_str row_full_clean
          self m None false) w1 = (w2, r2)
      ∧ changes_only P (ledger w) (ledger w2)) as Hloop.
    { pose proof (confined_for_each P (messages ex)
        (λ m, audit_result py_str row_full_clean self m None false)
        (λ m, confined_audit_result P self m None false HP) w1 (proj1 H1)) as H.
      destruct (for_each _ _ w1) as [w2 r2]. exists w2, r2. split; [done|].
      by eapply changes_only_trans. }
    destruct r1 as [[]|e]; [by exists w1, (Ok tt)|].
    destruct e; try (eexists _, _; split; [reflexivity|done]). exact Hloop. }
  pose proof (confined_bind P
    (mark_existing_attributes_as_valid py_str row_full_clean query_order self excl)
    (λ _, audit_result py_str row_full_clean self (obj_str (context_object self) +:+ " is not valid")
            None false)
    (confined_mark_existing P self excl HP)
    (λ _, confined_audit_result P self _ None false HP)
    w2 (proj1 H2)) as H3.
  destruct (bind _ _ w2) as [w3 [[]|e]]; cbn in *; by eapply changes_only_trans.
Qed.

Lemma confined_clean (P : LedgerKey → Prop) self :
  (∀ a, P (self_key self a)) → confined P (AuditRuleset_clean py_str row_full_clean
      query_order self).
Proof.
  intros HP w Hnd. unfold AuditRuleset_clean.
  pose proof (confined_bind P (lift (audit (cls self) (context_object self)))
    (λ _, let* _ := mark_existing_attributes_as_valid py_str row_full_clean query_order self [] in
          audit_result py_str row_full_clean self (obj_str (context_object self) +:+ " is valid") None true)
    (confined_lift P _)
    (λ _, confined_bind P _ _ (confined_mark_existing P self [] HP)
            (λ _, confined_audit_result P self _ None true HP)) w Hnd) as Htry.
  destruct (bind _ _ w) as [w1 [[]|e]]; cbn in *; [done|].
  destruct e; try done.
  eapply changes_only_trans; [exact Htry|].
  apply (confined_bind P (record_failure py_str row_full_clean query_order self p));
    [by apply confined_record_failure| |apply Htry].
  intros _. destruct (enforce (cls self)); [apply confined_raise|apply confined_ret].
Qed.

Lemma confined_run_ruleset (P : LedgerKey → Prop) c obj :
  (∀ a, P (self_key (ruleset_instance c obj 0) a)) →
  confined P (run_ruleset py_str clock row_full_clean query_order c obj).
Proof.
  intros HP w Hnd. rewrite run_ruleset_unfold.
  exact (confined_clean P (ruleset_instance c obj (clock (ticks w))) HP
           {| ledger := ledger w; objects := objects w; log := log w;
              ticks := S (ticks w) |} Hnd).
Qed.

(** X3: a run writes the rows of its own ruleset and instance only.
    Whatever the audit does (pass, fail, or raise anything), and even when
    the run itself ends in an exception, every row of another ruleset or of
    another instance is still in the ledger afterwards, unchanged, and no
    row is created for another ruleset or instance. *)
Theorem run_leaves_other_rows_alone c obj w :
  unique_keys (ledger w) →
  let w' := (run_ruleset py_str clock row_full_clean query_order c obj w).1 in
  (∀ r, r ∈ ledger w → ¬ mine (ruleset_instance c obj 0) r →
        find_row (row_key r) (ledger w') = Some r)
  ∧ (∀ r, r ∈ ledger w' → ¬ mine (ruleset_instance c obj 0) r → r ∈ ledger w).
Proof.
  intros Hnd. cbn zeta.
  destruct (confined_run_ruleset (ruleset_keys c obj) c obj (λ a, ex_intro _ a eq_refl) w Hnd)
    as [Hnd' Hsame].
  assert (∀ r, ¬ mine (ruleset_instance c obj 0) r → ¬ ruleset_keys c obj (row_key r))
    as Hother.
  { intros r Hr [a Hk]. apply Hr. by apply mine_self_key in Hk as [? _]. }
  split.
  - intros r Hr Hk. rewrite Hsame by (by apply Hother). by apply find_row_elem.
  - intros r Hr Hk. pose proof (find_row_elem _ r Hnd' Hr) as Hf.
    rewrite Hsame in Hf by (by apply Hother). by apply find_row_Some in Hf as [_ ?].
Qed.

Lemma instance_keys_self_key c obj a :
  instance_keys obj (self_key (ruleset_instance c obj 0) a).
Proof. done. Qed.

Lemma confined_repository_rulesets obj repo :
  confined (instance_keys obj) (repository_rulesets py_str clock row_full_clean query_order
      obj repo).
Proof.
  unfold repository_rulesets, import_python_file_from_git_repo.
  apply confined_bind; [apply confined_lift|]. intros [custom_validators|]; [|apply confined_ret].
  apply confined_for_each. intros audit_class. case_bool_decide; [apply confined_ret|].
  apply confined_run_ruleset. intros a. apply instance_keys_self_key.
Qed.

(** X4: validating one instance never touches the ledger rows of another.
    Through the whole of [BaseValidator.clean], declarative rules,
    registered rulesets and repository rulesets, whatever they return or
    raise, the ledger keeps one row per key, every row whose content type or
    object id is not that of the validated instance is still there
    afterwards, unchanged, and no row is created for another instance. *)
Theorem pass_leaves_other_instances_alone env model obj w :
  unique_keys (ledger w) →
  let w' := (BaseValidator_clean py_str clock row_full_clean query_order
      re_match render_jinja2 validate_regex
               env model obj w).1 in
  unique_keys (ledger w')
  ∧ (∀ r, r ∈ ledger w →
          content_type r ≠ content_type_of obj ∨ object_id r ≠ id obj →
          find_row (row_key r) (ledger w') = Some r)
  ∧ (∀ r, r ∈ ledger w' →
          content_type r ≠ content_type_of obj ∨ object_id r ≠ id obj →
          r ∈ ledger w).
Proof.
  intros Hnd. cbn zeta.
  assert (confined (instance_keys obj)
            (BaseValidator_clean py_str clock row_full_clean query_order
                re_match render_jinja2 validate_regex
               env model obj)) as Hconf.
  { unfold BaseValidator_clean. apply confined_bind.
    { apply confined_same. intros w0.
      apply (quiet_declarative_rules py_str re_match render_jinja2 validate_regex
               env model obj w0). }
    intros _. apply confined_bind.
    { unfold registered_rulesets.
      destruct (get_audit_rule_sets_map (registry env) !! model);
        [apply confined_ret|apply confined_raise]. }
    intros audit_classes. apply confined_bind.
    { apply confined_for_each. intros audit_class. apply confined_run_ruleset.
      intros a. apply instance_keys_self_key. }
    intros _. apply confined_for_each. intros repo. apply confined_repository_rulesets. }
  destruct (Hconf w Hnd) as [Hnd' Hsame]. split; [done|].
  assert (∀ r, content_type r ≠ content_type_of obj ∨ object_id r ≠ id obj →
               ¬ instance_keys obj (row_key r)) as Hother.
  { intros r Hr. unfold instance_keys, row_key. cbn. intros [? ?]. by destruct Hr. }
  split.
  - intros r Hr Hk. rewrite Hsame by (by apply Hother). by apply find_row_elem.
  - intros r Hr Hk. pose proof (find_row_elem _ r Hnd' Hr) as Hf.
    rewrite Hsame in Hf by (by apply Hother). by apply find_row_Some in Hf as [_ ?].
Qed.

End Isolation.

(** * Keyed failures *)

Section KeyedFailures.

Variable py_str : value → string.
Variable row_full_clean : AuditResult → list AuditResult → option payload.
Variable query_order : list AuditResult → list AuditResult.
Hypothesis query_order_perm : ∀ l, query_order l ≡ₚ l.



End KeyedFailures.

(** * The ledger operations on their own *)

Section LedgerOperations.

Variable py_str : value → string.
Variable row_full_clean : AuditResult → list AuditResult → option payload.
Variable query_order : list AuditResult → list AuditResult.
Hypothesis query_order_perm : ∀ l, query_order l ≡ₚ l.

(** X6: [audit_result] is an insert-or-overwrite, then the validation of
    the row by the ledger model, and a lookup finds what was written.  On a
    ledger with one row per key, for no attribute, the empty name, or an
    attribute the instance has: the write lands on one key (the
    attribute's, or "all"), the row stored there holds the run's timestamp,
    the message, the flag, and [str()] of the attribute's value, or no
    value when that value is falsy (None, 0, False, "", an empty container)
    or when the write is to "all"; every other key keeps its row; and the
    call returns when the model accepts the row and raises the model's
    ValidationError, with the row stored, when it does not.  With an
    attribute the instance does not have, an AttributeError is raised and
    the ledger is not changed. *)
Theorem audit_result_round_trip self msg attribute ok w :
  unique_keys (ledger w) →
  let row := written_row py_str self msg attribute ok in
  ((∀ a, attribute = Some a → a ≠ "" → is_Some (fields (context_object self) !! a)) →
   ∃ w',
     audit_result py_str row_full_clean self msg attribute ok w
     = (w', match row_full_clean row (ledger w') with
            | Some errors => Raise (ValidationError errors)
            | None => Ok tt
            end)
     ∧ find_row (row_key row) (ledger w') = Some row
     ∧ (∀ k, k ≠ row_key row → find_row k (ledger w') = find_row k (ledger w)))
  ∧ row = mk_row (self_key self (target attribute)) (result_date self)
            (validated_attribute_value row) msg ok
  ∧ (∀ a v, attribute = Some a → a ≠ "" → fields (context_object self) !! a = Some v →
       validated_attribute row = a
       ∧ validated_attribute_value row = if truthy v then Some (py_str v) else None)
  ∧ (attribute = None ∨ attribute = Some "" →
       validated_attribute row = "all" ∧ validated_attribute_value row = None)
  ∧ (∀ a, attribute = Some a → a ≠ "" → fields (context_object self) !! a = None →
       audit_result py_str row_full_clean self msg attribute ok w
       = (w, Raise (AttributeError a))).
Proof.
  intros Hnd row. split; [|split; [|split; [|split]]].
  - intros Hattr. exists (set_ledger (upsert row (ledger w)) w).
    split; [by apply audit_result_outcome|].
    cbn [ledger set_ledger]. split.
    + by apply find_row_upsert_eq.
    + intros k Hk. by apply find_row_upsert_ne.
  - done.
  - intros a v -> Ha Hv. unfold row, written_row, mk_row, target, stored_value. cbn.
    by rewrite bool_decide_eq_false_2, Hv.
  - intros [->| ->]; done.
  - intros a -> Ha Hfield. by apply audit_result_missing.
Qed.




End LedgerOperations.

(** * More on the declarative rules *)

Section MoreRuleFacts.

Variable py_str : value → string.
Variable re_match : string → string → option bool.
Variable render_jinja2 : string → Instance → option string.
Variable validate_regex : string → bool.

(** X9: what a min/max rule lets through.  On a field the object has, the
    rule returns normally exactly when the value is a number (an int, a
    float or a bool, never None) that is not below the configured min and
    not above the configured max, an absent bound allowing everything; in
    every other case it raises one violation on the rule's field and never
    any other exception. *)
Theorem minmax_rule_passes_iff obj (rule : MinMaxValidationRule) w v :
  fields obj !! field rule = Some v →
  (minmax_rule py_str obj rule w = (w, Ok tt)
   ↔ ∃ x, as_number v = Some x
          ∧ (∀ lo, min rule = Some lo → (lo ≤ x)%Qc)
          ∧ (∀ hi, max rule = Some hi → (x ≤ hi)%Qc))
  ∧ (minmax_rule py_str obj rule w = (w, Ok tt)
     ∨ ∃ msg, minmax_rule py_str obj rule w = (w, violation (field rule) msg)).
Proof.
  intros Hv.
  assert (as_number v = None →
          ∃ msg, minmax_rule py_str obj rule w = (w, violation (field rule) msg)) as Hnon.
  { intros Hx. unfold minmax_rule, bind, getattr. rewrite Hv. unfold ret at 1.
    destruct v; try done; eexists; reflexivity. }
  assert (∀ x, as_number v = Some x →
    minmax_rule py_str obj rule w
    = (if match min rule with Some lo => Qc_ltb x lo | None => false end then
         validation_error (field rule)
           (or_else (error_message rule)
              ("Value is less than minimum value: " +:+ str_bound py_str (min rule)))
       else if match max rule with Some hi => Qc_ltb hi x | None => false end then
         validation_error (field rule)
           (or_else (error_message rule)
              ("Value is more than maximum value: " +:+ str_bound py_str (max rule)))
       else ret tt) w) as Hnum.
  { intros x Hx. unfold minmax_rule, bind, getattr. rewrite Hv. unfold ret at 1.
    destruct v; try done; by rewrite Hx. }
  split.
  - split.
    + intros Hrun. destruct (as_number v) as [x|] eqn:Hx.
      * exists x. split; [done|]. rewrite (Hnum x eq_refl) in Hrun.
        split.
        -- intros lo Hlo. rewrite Hlo in Hrun. unfold Qc_ltb in Hrun.
           case_bool_decide as Hlt; [done|]. by apply Qcnot_lt_le.
        -- intros hi Hhi. rewrite Hhi in Hrun. unfold Qc_ltb in Hrun.
           destruct (match min rule with Some lo => _ | None => false end); [done|].
           case_bool_decide as Hlt; [done|]. by apply Qcnot_lt_le.
      * destruct (Hnon eq_refl) as [msg Hmsg]. by rewrite Hmsg in Hrun.
    + intros (x & Hx & Hmin & Hmax). rewrite (Hnum x Hx).
      assert (match min rule with Some lo => Qc_ltb x lo | None => false end = false) as ->.
      { destruct (min rule) as [lo|]; [|done]. unfold Qc_ltb.
        apply bool_decide_eq_false_2. apply Qcle_not_lt. by apply Hmin. }
      assert (match max rule with Some hi => Qc_ltb hi x | None => false end = false) as ->.
      { destruct (max rule) as [hi|]; [|done]. unfold Qc_ltb.
        apply bool_decide_eq_false_2. apply Qcle_not_lt. by apply Hmax. }
      done.
  - destruct (as_number v) as [x|] eqn:Hx; [|right; by apply Hnon].
    rewrite (Hnum x eq_refl).
    destruct (match min rule with Some lo => _ | None => false end);
      [right; eexists; reflexivity|].
    destruct (match max rule with Some hi => _ | None => false end);
      [right; eexists; reflexivity|by left].
Qed.

(** X10: a context-aware regex rule whose pattern cannot be used.  When the
    rendering of the pattern raises, or the rendered text is not a valid
    expression, the rule raises a violation on its field with the fixed
    diagnostic message, whatever the field's value is and whatever custom
    message the rule has; the value is not matched against anything, one
    line is added to the log, and nothing else changes. *)
Theorem regex_rule_unusable_pattern obj (rule : RegularExpressionValidationRule) w v :
  fields obj !! field rule = Some v →
  context_processing rule = true →
  regex_pattern render_jinja2 validate_regex obj rule = None →
  regex_rule re_match render_jinja2 validate_regex obj rule w
  = ({| ledger := ledger w; objects := objects w;
        log := log w ++
          ["There was an error rendering the regular expression in the data validation rule '"
           +:+ rule_str rule +:+ "' and a ValidationError was raised!"];
        ticks := ticks w |},
     violation (field rule)
       ("There was an error rendering the regular expression in the data validation rule '"
        +:+ rule_str rule
        +:+ "'. Either fix the validation rule or disable it in order to save this data.")).
Proof.
  intros Hv Hctx Hpat. unfold regex_pattern in Hpat. rewrite Hctx in Hpat.
  unfold regex_rule, bind at 1, getattr. rewrite Hv. unfold ret at 1.
  unfold bind at 1. rewrite Hctx.
  destruct (render_jinja2 (regular_expression rule) obj) as [rendered|]; [|done].
  destruct (validate_regex rendered); [done|done].
Qed.

End MoreRuleFacts.

(** * Discovery and dispatch *)

Section Dispatch.

Variable py_str : value → string.
Variable clock : nat → Z.
Variable row_full_clean : AuditResult → list AuditResult → option payload.
Variable query_order : list AuditResult → list AuditResult.
Variable re_match : string → string → option bool.
Variable render_jinja2 : string → Instance → option string.
Variable validate_regex : string → bool.

Lemma foldl_concat {A B} (f : A → B → A) (ls : list (list B)) (a : A) :
  foldl (λ acc l, foldl f acc l) a ls = foldl f a (concat ls).
Proof.
  revert a. induction ls as [|l ls IH]; intros a; [done|].
  cbn. by rewrite foldl_app, IH.
Qed.

(** A model no audit ruleset is bound to has no entry in the map. *)
Lemma get_audit_rule_sets_map_absent reg model :
  (∀ c, c ∈ registered_classes reg → cls_model c ≠ model) →
  get_audit_rule_sets_map reg !! model = None.
Proof.
  unfold get_audit_rule_sets_map, registered_classes.
  rewrite (foldl_concat
    (λ audit_rulesets v,
       match is_audit_rule_set v with
       | Some c =>
           <[cls_model c := default [] (audit_rulesets !! cls_model c) ++ [c]]> audit_rulesets
       | None => audit_rulesets
       end)).
  generalize (concat (map snd reg)). intros vs.
  induction vs as [|v vs IH] using rev_ind; intros Hnone; [done|].
  rewrite foldl_snoc.
  assert (∀ c, c ∈ omap is_audit_rule_set vs → cls_model c ≠ model) as Hvs.
  { intros c Hc. apply Hnone. rewrite omap_app. apply elem_of_app. by left. }
  destruct (is_audit_rule_set v) as [c|] eqn:Hv; [|by apply IH].
  rewrite lookup_insert_ne; [by apply IH|].
  apply Hnone. apply list_elem_of_omap. exists v. split; [|done].
  apply elem_of_app. right. apply list_elem_of_here.
Qed.

(** X11: [get_audit_rule_sets_map] groups the registered audit rulesets by
    the model they are bound to.  A model's entry is the list of the audit
    ruleset classes bound to it, from every registry entry, in registration
    order; validators that are not audit rulesets are left out; and a model
    no audit ruleset is bound to has no entry at all (not an empty list). *)
Theorem get_audit_rule_sets_map_lookup reg model :
  get_audit_rule_sets_map reg !! model
  = if decide (classes_for model reg = []) then None else Some (classes_for model reg).
Proof.
  unfold get_audit_rule_sets_map, classes_for, registered_classes.
  rewrite (foldl_concat
    (λ audit_rulesets v,
       match is_audit_rule_set v with
       | Some c =>
           <[cls_model c := default [] (audit_rulesets !! cls_model c) ++ [c]]> audit_rulesets
       | None => audit_rulesets
       end)).
  generalize (concat (map snd reg)). intros vs.
  induction vs as [|v vs IH] using rev_ind; [done|].
  rewrite foldl_snoc, omap_app, filter_app.
  assert (omap is_audit_rule_set [v]
          = match is_audit_rule_set v with Some c => [c] | None => [] end) as -> by done.
  destruct (is_audit_rule_set v) as [c|] eqn:Hv.
  - rewrite filter_cons, filter_nil.
    destruct (decide (cls_model c = model)) as [<-|Hne].
    + rewrite lookup_insert_eq, IH.
      set (L := filter (λ c0, cls_model c0 = cls_model c) (omap is_audit_rule_set vs)).
      destruct (decide (L ++ [c] = [])) as [Hnil|_].
      { by apply app_eq_nil in Hnil as [_ ?]. }
      by destruct (decide (L = [])) as [->|_].
    + rewrite lookup_insert_ne by done. by rewrite IH, app_nil_r.
  - by rewrite filter_nil, app_nil_r, IH.
Qed.

(** X12: a model without a registered audit ruleset.  When no audit ruleset
    is bound to the model and the declarative rules pass, the pass ends in
    a KeyError for the model: the lookup in the plain dictionary fails, and
    no repository is consulted. *)
Theorem clean_without_registered_ruleset env model obj w w1 :
  declarative_rules py_str re_match render_jinja2 validate_regex env model obj w
  = (w1, Ok tt) →
  (∀ c, c ∈ registered_classes (registry env) → cls_model c ≠ model) →
  BaseValidator_clean py_str clock row_full_clean query_order
      re_match render_jinja2 validate_regex env model obj w
  = (w1, Raise (KeyError model)).
Proof.
  intros Hdecl Hnone. unfold BaseValidator_clean, bind at 1. rewrite Hdecl.
  unfold bind at 1, registered_rulesets.
  by rewrite get_audit_rule_sets_map_absent.
Qed.

(** X13: what a repository contributes.  Running the rulesets of a
    repository's module is running, in order, exactly those of its
    [custom_validators] that are bound to the model of the object; classes
    bound to other models are not instantiated.  A module without
    [custom_validators], or with none for this model, changes nothing, and
    an exception raised while importing the module is the outcome. *)
Theorem repository_runs_matching_rulesets obj repo w :
  (∀ classes, imported repo = Ok (Some classes) →
     repository_rulesets py_str clock row_full_clean query_order obj repo w
     = for_each (matching_classes obj classes)
         (λ audit_class, run_ruleset py_str clock row_full_clean query_order audit_class obj) w
     ∧ (matching_classes obj classes = [] →
        repository_rulesets py_str clock row_full_clean query_order obj repo w = (w, Ok tt)))
  ∧ (imported repo = Ok None → repository_rulesets py_str clock row_full_clean query_order
      obj repo w = (w, Ok tt))
  ∧ (∀ e, imported repo = Raise e →
       repository_rulesets py_str clock row_full_clean query_order obj repo w = (w, Raise e)).
Proof.
  assert (∀ classes w0,
    for_each classes (λ audit_class,
      if bool_decide (app_label obj +:+ "." +:+ model_name obj ≠ cls_model audit_class)
      then ret tt else run_ruleset py_str clock row_full_clean query_order audit_class obj) w0
    = for_each (matching_classes obj classes)
        (λ audit_class, run_ruleset py_str clock row_full_clean query_order
            audit_class obj) w0) as Hloop.
  { intros classes. induction classes as [|c classes IH]; intros w0; [done|].
    unfold matching_classes. rewrite filter_cons. cbn [for_each].
    case_bool_decide as Hc.
    - rewrite decide_False by (by intros ?). unfold bind, ret. apply IH.
    - rewrite decide_True by (by symmetry).
      cbn [for_each]. unfold bind.
      destruct (run_ruleset py_str clock row_full_clean query_order
          c obj w0) as [w1 [[]|e]]; [apply IH|done]. }
  split; [|split].
  - intros classes Himp.
    assert (repository_rulesets py_str clock row_full_clean query_order obj repo w
            = for_each (matching_classes obj classes)
                (λ audit_class, run_ruleset py_str clock row_full_clean query_order
                    audit_class obj) w) as Hrun.
    { unfold repository_rulesets, import_python_file_from_git_repo, bind, lift.
      rewrite Himp. apply Hloop. }
    split; [done|]. intros Hnil. by rewrite Hrun, Hnil.
  - intros Himp. unfold repository_rulesets, import_python_file_from_git_repo, bind, lift.
    by rewrite Himp.
  - intros e Himp. unfold repository_rulesets, import_python_file_from_git_repo, bind, lift.
    by rewrite Himp.
Qed.

End Dispatch.

(** * The inspection view *)

Section InspectionFacts.

Variable clock : nat → Z.
Variable full_clean : Instance → M unit.

Lemma append_messages_lookup (a a' : string) msgs (acc : gmap string (list string)) :
  foldl (λ errors m, <[a' := default [] (errors !! a') ++ [m]]> errors) acc msgs !! a
  = if decide (a = a' ∧ msgs ≠ []) then Some (default [] (acc !! a) ++ msgs)
    else acc !! a.
Proof.
  revert acc. induction msgs as [|m msgs IH]; intros acc.
  - cbn. rewrite decide_False; [done|]. by intros [_ ?].
  - cbn [foldl]. rewrite IH. destruct (decide (a = a')) as [<-|Hne].
    + rewrite (decide_True (P := a = a ∧ m :: msgs ≠ [])) by done.
      rewrite lookup_insert_eq. cbn. rewrite <- app_assoc. cbn.
      destruct msgs as [|m' msgs].
      * by destruct (decide (a = a ∧ @nil string ≠ [])).
      * by rewrite decide_True.
    + rewrite !decide_False by (by intros [? _]). by rewrite lookup_insert_ne.
Qed.

(** The list an attribute has in the mapping the keyed loop builds. *)
Lemma keyed_messages_lookup d a :
  foldl (λ errors '(attribute, msgs),
           foldl (λ errors m,
                    <[attribute := default [] (errors !! attribute) ++ [m]]> errors)
             errors msgs) (∅ : gmap string (list string)) d !! a
  = if decide (messages_for a d = []) then None else Some (messages_for a d).
Proof.
  induction d as [|[a' msgs] d IH] using rev_ind; [done|].
  rewrite foldl_snoc, append_messages_lookup, IH.
  unfold messages_for. rewrite filter_app, fmap_app, concat_app, filter_cons, filter_nil.
  cbn [fst]. set (L := concat (snd <$> filter (λ p, p.1 = a) d)).
  destruct (decide (a' = a)) as [->|Hne].
  - cbn. rewrite app_nil_r. destruct msgs as [|m msgs].
    + rewrite decide_False by (by intros [_ ?]). by rewrite app_nil_r.
    + rewrite decide_True by done.
      rewrite (decide_False (P := L ++ m :: msgs = [])) by (by intros [_ ?]%app_eq_nil).
      by destruct (decide (L = [])) as [->|_].
  - rewrite decide_False by (intros [? _]; congruence). cbn. by rewrite app_nil_r.
Qed.

(** X14: the error mapping of a keyed failure.  [extract_attribute_errors]
    maps every attribute of the failure to the list of its messages, in
    order, and has no entry for an attribute that comes without messages
    or is not in the failure at all; the unkeyed branch is not taken. *)
Theorem extract_keyed_errors d a :
  extract_attribute_errors (ErrDict d) !! a
  = if decide (messages_for a d = []) then None else Some (Messages (messages_for a d)).
Proof.
  unfold extract_attribute_errors. cbn [message_dict].
  rewrite lookup_fmap, keyed_messages_lookup.
  by destruct (decide (messages_for a d = [])).
Qed.

(** X15: the error mapping of an unkeyed failure.  Every message is
    assigned to the one key "all", each assignment replacing the one
    before, so [extract_attribute_errors] returns the last message alone,
    as a bare string and not as a list; with no message the mapping is
    empty. *)
Theorem extract_unkeyed_errors msgs :
  extract_attribute_errors (ErrList msgs)
  = match last msgs with
    | Some m => {["all" := Message m]}
    | None => ∅
    end.
Proof.
  unfold extract_attribute_errors. cbn [message_dict messages].
  induction msgs as [|m msgs IH] using rev_ind; [done|].
  rewrite foldl_snoc, IH, last_snoc.
  destruct (last msgs) as [m'|].
  - by rewrite <- insert_empty, insert_insert_eq, insert_empty.
  - by rewrite insert_empty.
Qed.

Lemma audit_rules_closed rules instance errors w :
  Forall (λ c, handled (audit c instance)) rules →
  audit_rules clock rules instance errors w
  = ({| ledger := ledger w; objects := objects w; log := log w;
        ticks := length rules + ticks w |},
     Ok (foldl (λ errors c, collect (audit c instance) errors) errors rules)).
Proof.
  intros Hall. revert errors w. induction Hall as [|c rules Hc Hall IH]; intros errors w.
  - cbn. unfold ret. by destruct w.
  - cbn [audit_rules foldl]. unfold bind at 1.
    unfold AuditRuleset_init, bind at 1, timezone_now, ret at 1.
    unfold bind at 1, _audit, lift. cbn [cls context_object ruleset_instance].
    destruct (audit c instance) as [[]|e] eqn:Ha.
    + rewrite IH. cbn. do 3 f_equal. lia.
    + destruct e; try done; rewrite IH; cbn; do 3 f_equal; lia.
Qed.

(** [_validate] after its first [_audit]: the loop over the rules and the
    report. *)
Lemma validate_rest (view : DataComplianceObjectAPIView) instance errors0 w1 :
  Forall (λ c, handled (audit c instance)) (view_rules view) →
  (let* compliance_errors := audit_rules clock (view_rules view) instance errors0 in
   ret {| report_model := view_model view; report_id := id instance;
          report_valid := bool_decide (size compliance_errors = 0);
          report_errors := compliance_errors |}) w1
  = ({| ledger := ledger w1; objects := objects w1; log := log w1;
        ticks := length (view_rules view) + ticks w1 |},
     Ok {| report_model := view_model view; report_id := id instance;
           report_valid :=
             bool_decide (foldl (λ errors c, collect (audit c instance) errors)
                            errors0 (view_rules view) = ∅);
           report_errors :=
             foldl (λ errors c, collect (audit c instance) errors)
               errors0 (view_rules view) |}).
Proof.
  intros Hrules. unfold bind. rewrite audit_rules_closed by done. unfold ret.
  do 3 f_equal. apply bool_decide_ext. apply map_size_empty_iff.
Qed.

(** [_validate] as its first [_audit] followed by the rest. *)
Lemma validate_unfold view instance w w1 r0 :
  full_clean instance w = (w1, r0) →
  handled r0 →
  _validate clock full_clean view instance w
  = (let* compliance_errors := audit_rules clock (view_rules view) instance (collect r0 ∅) in
     ret {| report_model := view_model view; report_id := id instance;
            report_valid := bool_decide (size compliance_errors = 0);
            report_errors := compliance_errors |}) w1.
Proof.
  intros Hfull Hr0. unfold _validate, bind at 1, _audit. rewrite Hfull.
  destruct r0 as [[]|e]; [done|]. by destruct e.
Qed.

(** X16: the report of [_validate].  When [full_clean] and the audits of
    the view's rules return or raise validation errors only, [_validate]
    returns a report whose errors are the extractions of those errors laid
    on top of each other in order ([full_clean] first), and whose valid
    flag tells whether that mapping is empty.  The loop over the rules
    calls [audit], not [clean]: it reads the clock once per rule and writes
    nothing, so the ledger is the one [full_clean] left. *)
Theorem validate_report view instance w w1 r0 :
  full_clean instance w = (w1, r0) →
  handled r0 →
  Forall (λ c, handled (audit c instance)) (view_rules view) →
  let errors := foldl (λ errors c, collect (audit c instance) errors)
                  (collect r0 ∅) (view_rules view) in
  _validate clock full_clean view instance w
  = ({| ledger := ledger w1; objects := objects w1; log := log w1;
        ticks := length (view_rules view) + ticks w1 |},
     Ok {| report_model := view_model view; report_id := id instance;
           report_valid := bool_decide (errors = ∅); report_errors := errors |}).
Proof.
  intros Hfull Hr0 Hrules. cbn zeta.
  rewrite (validate_unfold view instance w w1 r0 Hfull Hr0).
  by apply validate_rest.
Qed.

Lemma audit_rules_unexpected before c after instance errors w e :
  Forall (λ c', handled (audit c' instance)) before →
  audit c instance = Raise e → ¬ handled (Raise e) →
  audit_rules clock (before ++ c :: after) instance errors w
  = ({| ledger := ledger w; objects := objects w; log := log w;
        ticks := S (length before) + ticks w |}, Raise e).
Proof.
  intros Hbefore Ha He. revert errors w.
  induction Hbefore as [|c' before Hc' Hbefore IH]; intros errors w.
  - cbn [app audit_rules]. unfold bind at 1.
    unfold AuditRuleset_init, bind at 1, timezone_now, ret at 1.
    unfold bind at 1, _audit, lift. cbn [cls context_object ruleset_instance].
    rewrite Ha. by destruct e.
  - cbn [app audit_rules]. unfold bind at 1.
    unfold AuditRuleset_init, bind at 1, timezone_now, ret at 1.
    unfold bind at 1, _audit, lift. cbn [cls context_object ruleset_instance].
    destruct (audit c' instance) as [[]|e'] eqn:Ha'.
    + rewrite IH. cbn. do 2 f_equal. lia.
    + destruct e'; try done; rewrite IH; cbn; do 2 f_equal; lia.
Qed.

(** X17: an exception that is not a validation error ends the inspection.
    When [full_clean] raises one, [_validate] raises it and no rule is
    instantiated; when the audit of a rule raises one, [_validate] raises
    it after the rules before it, the rules after it are not instantiated,
    and in either case no report is returned. *)
Theorem validate_propagates_unexpected view instance w w1 r0 e :
  full_clean instance w = (w1, r0) →
  ¬ handled (Raise e) →
  (r0 = Raise e → _validate clock full_clean view instance w = (w1, Raise e))
  ∧ (∀ before c after,
       handled r0 →
       view_rules view = before ++ c :: after →
       Forall (λ c', handled (audit c' instance)) before →
       audit c instance = Raise e →
       _validate clock full_clean view instance w
       = ({| ledger := ledger w1; objects := objects w1; log := log w1;
             ticks := S (length before) + ticks w1 |}, Raise e)).
Proof.
  intros Hfull He. split.
  - intros ->. unfold _validate, bind at 1, _audit. rewrite Hfull. by destruct e.
  - intros before c after Hr0 Hrules Hbefore Ha.
    unfold _validate, bind at 1, _audit. rewrite Hfull, Hrules.
    assert (∀ errors0,
      (let* compliance_errors :=
         audit_rules clock (before ++ c :: after) instance errors0 in
       ret {| report_model := view_model view; report_id := id instance;
              report_valid := bool_decide (size compliance_errors = 0);
              report_errors := compliance_errors |}) w1
      = ({| ledger := ledger w1; objects := objects w1; log := log w1;
            ticks := S (length before) + ticks w1 |}, Raise e)) as Hrest.
    { intros errors0. unfold bind.
      by rewrite (audit_rules_unexpected before c after instance errors0 w1 e). }
    destruct r0 as [[]|e0]; [apply Hrest|]. destruct e0; try done; apply Hrest.
Qed.

Lemma collect_lookup_absent r errors a :
  reported r !! a = None → collect r errors !! a = errors !! a.
Proof.
  unfold reported, collect. destruct r as [[]|e]; [done|].
  destruct e; try done; intros Ha; rewrite lookup_union_r; try done;
    rewrite lookup_union in Ha; by destruct (extract_attribute_errors p !! a).
Qed.

Lemma collect_lookup_present r errors a entry :
  reported r !! a = Some entry → collect r errors !! a = Some entry.
Proof.
  unfold reported, collect. destruct r as [[]|e]; [done|].
  destruct e; try done; intros Ha; apply lookup_union_Some_l;
    rewrite lookup_union in Ha; by destruct (extract_attribute_errors p !! a).
Qed.

Lemma collect_later_absent (instance : Instance) after acc a :
  Forall (λ c', reported (audit c' instance) !! a = None) after →
  foldl (λ errors c', collect (audit c' instance) errors) acc after !! a = acc !! a.
Proof.
  intros Hafter. revert acc. induction Hafter as [|c' after Hc' Hafter IH]; intros acc; [done|].
  cbn [foldl]. rewrite IH. by apply collect_lookup_absent.
Qed.

(** X18: in the report of [_validate] the last word counts.  When the audit
    of a rule reports on an attribute and no rule after it does, the
    report's entry for the attribute is what that rule reported: what
    [full_clean] or earlier rules said about the same attribute is
    replaced, not appended to. *)
Theorem validate_later_rule_replaces_earlier view instance w w1 r0 before c after a entry :
  full_clean instance w = (w1, r0) →
  handled r0 →
  Forall (λ c', handled (audit c' instance)) (view_rules view) →
  view_rules view = before ++ c :: after →
  reported (audit c instance) !! a = Some entry →
  Forall (λ c', reported (audit c' instance) !! a = None) after →
  ∃ w' report,
    _validate clock full_clean view instance w = (w', Ok report)
    ∧ report_errors report !! a = Some entry
    ∧ report_valid report = false.
Proof.
  intros Hfull Hr0 Hrules Hsplit Hc Hafter.
  rewrite (validate_unfold view instance w w1 r0 Hfull Hr0), validate_rest by done.
  eexists _, _. split; [done|]. cbn [report_errors report_valid].
  assert (foldl (λ errors c', collect (audit c' instance) errors)
            (collect r0 ∅) (view_rules view) !! a = Some entry) as Hentry.
  { rewrite Hsplit, foldl_app. cbn [foldl]. rewrite collect_later_absent by done.
    by apply collect_lookup_present. }
  split; [done|]. apply bool_decide_eq_false_2. intros Hempty.
  by rewrite Hempty, lookup_empty in Hentry.
Qed.

Lemma collect_empty_iff r errors :
  collect r errors = ∅ ↔ reported r = ∅ ∧ errors = ∅.
Proof.
  unfold reported, collect. destruct r as [[]|e].
  - split; [by intros ->|by intros [_ ->]].
  - destruct e; try (split; [by intros ->|by intros [_ ->]]);
      rewrite (right_id_L ∅ (∪)); (split;
        [intros Hu; split; [by apply map_positive_l in Hu|];
         apply map_positive_l in Hu as Hl; by rewrite Hl, (left_id_L ∅ (∪)) in Hu
        |intros [-> ->]; by rewrite (left_id_L ∅ (∪))]).
Qed.

(** X19: when an inspection is valid.  The report of [_validate] is valid
    exactly when neither [full_clean] nor the audit of any rule reports on
    an attribute.  A failure that carries no message (a keyed failure whose
    attributes have empty message lists, an unkeyed one with no message)
    reports on nothing, so it does not make the instance invalid. *)
Theorem validate_valid_iff view instance w w1 r0 :
  full_clean instance w = (w1, r0) →
  handled r0 →
  Forall (λ c, handled (audit c instance)) (view_rules view) →
  ∃ w' report,
    _validate clock full_clean view instance w = (w', Ok report)
    ∧ (report_valid report = true
       ↔ reported r0 = ∅ ∧ Forall (λ c, reported (audit c instance) = ∅) (view_rules view))
    ∧ reported (Raise (AuditError (ErrList []))) = ∅
    ∧ (∀ d, Forall (λ p, p.2 = []) d → reported (Raise (AuditError (ErrDict d))) = ∅).
Proof.
  intros Hfull Hr0 Hrules.
  rewrite (validate_unfold view instance w w1 r0 Hfull Hr0), validate_rest by done.
  eexists _, _. split; [done|]. cbn [report_valid]. split; [|split].
  - rewrite bool_decide_eq_true. generalize (view_rules view). intros rules.
    induction rules as [|c rules IH] using rev_ind.
    + cbn. rewrite collect_empty_iff. split; [by intros [? _]|by intros [? _]].
    + rewrite foldl_snoc, collect_empty_iff, IH, Forall_app, Forall_singleton. tauto.
  - done.
  - intros d Hd. unfold reported, collect. rewrite (right_id_L ∅ (∪)).
    apply map_eq. intros a. unfold extract_attribute_errors. cbn [message_dict].
    rewrite lookup_fmap, keyed_messages_lookup, lookup_empty.
    rewrite decide_True; [done|]. unfold messages_for.
    induction Hd as [|[a' msgs] d Hp Hd IH]; [done|].
    rewrite filter_cons. cbn in Hp. subst msgs. by case_decide.
Qed.

End InspectionFacts.

(** * Worked examples *)








(** An audit that divides by zero. *)
Lemma unexpected_exception_witness :
  ∃ w',
    run_ruleset demo_str demo_clock demo_clean demo_order (site_audit (Raise (OtherError "ZeroDivisionError")) false)
      site world1
    = (w', Raise (OtherError "ZeroDivisionError"))
    ∧ ledger w' = ledger world1.
Proof.
  apply (unexpected_exception_propagates demo_str demo_clock demo_clean demo_order
           (site_audit (Raise (OtherError "ZeroDivisionError")) false) site
           (OtherError "ZeroDivisionError") world1).
  - reflexivity.
  - intros p. discriminate.
Defined.

(** Three runs in a row from the empty ledger. *)
Lemma ledger_invariant_witness :
  let runs := [(site_audit flags_name_and_status false, site);
               (site_audit flags_unkeyed true, site);
               (site_audit (Ok tt) false, site)] in
  (unique_keys (ledger (audit_runs demo_str demo_clock demo_clean demo_order runs world0))
   ∧ keys (ledger world0) `prefix_of` keys (ledger (audit_runs demo_str demo_clock demo_clean demo_order runs world0)))
  ∧ ∀ k date v msg ok,
      ∃ w', update_or_create k date v msg ok world0 = (w', Ok (mk_row k date v msg ok))
        ∧ find_row k (ledger w') = Some (mk_row k date v msg ok)
        ∧ (∀ k', k' ≠ k → find_row k' (ledger w') = find_row k' (ledger world0))
        ∧ length (ledger w')
          = if bool_decide (k ∈ keys (ledger world0)) then length (ledger world0)
            else S (length (ledger world0)).
Proof.
  apply (ledger_one_row_per_key demo_str demo_clock demo_clean demo_order
           [(site_audit flags_name_and_status false, site);
            (site_audit flags_unkeyed true, site);
            (site_audit (Ok tt) false, site)] world0).
  apply (bool_decide_unpack _). by vm_compute.
Defined.

(** A context-aware pattern on a field that holds None. *)
Lemma regex_rule_witness :
  (∀ b, fields site !! field asn_pattern = Some VNone →
        demo_match "AS" "" = Some b →
        regex_rule demo_match demo_render demo_validate site asn_pattern world0
        = (world0, if b then Ok tt
                   else violation "asn" "Value does not conform to regex: AS"))
  ∧ (∀ text, fields site !! field asn_pattern = Some (VStr text) →
        demo_match "AS" text = Some false →
        regex_rule demo_match demo_render demo_validate site asn_pattern world0
        = (world0, violation "asn" "Value does not conform to regex: AS")).
Proof.
  apply (regex_rule_none_is_empty_string demo_match demo_render demo_validate
           site asn_pattern world0 "AS").
  reflexivity.
Defined.

(** A required rule on an empty name. *)
Lemma required_rule_witness :
  (required_rule site name_required world0
   = (world0, violation "name" "This field cannot be blank.")
   ↔ VStr "" = VNone ∨ VStr "" = VStr "")
  ∧ (¬ (VStr "" = VNone ∨ VStr "" = VStr "") →
     required_rule site name_required world0 = (world0, Ok tt))
  ∧ (VStr "" = VInt 0 ∨ VStr "" = VBool false ∨ (∃ s, VStr "" = VStr s ∧ whitespace_only s) →
     required_rule site name_required world0 = (world0, Ok tt)).
Proof.
  apply (required_rule_violation_iff site name_required world0 (VStr "")).
  by vm_compute.
Defined.

(** A unique rule with one allowed instance, on a persisted object. *)
Lemma unique_rule_witness :
  let n := Z.of_nat (length (matching_rows site "code" (VStr "X") (objects world0))) in
  let msg := "There can only be 1 instance with this value." in
  (unique_rule demo_str site code_unique world0 = (world0, violation "code" msg)
   ↔ VStr "X" ≠ VNone ∧ (1 ≤ n)%Z)
  ∧ (¬ (VStr "X" ≠ VNone ∧ (1 ≤ n)%Z) →
     unique_rule demo_str site code_unique world0 = (world0, Ok tt))
  ∧ (∀ before after, objects world0 = before ++ site :: after →
       n = (1 + Z.of_nat (length (matching_rows site "code" (VStr "X") (before ++ after))))%Z).
Proof.
  apply (unique_rule_violation_iff demo_str site code_unique world0 (VStr "X")).
  by vm_compute.
Defined.

(** C1, counterexample: min 10, max 1 and the value 5, which is below the
    min and above the max; the rule reports the min violation and nothing
    else: one violation, not two. *)
Lemma minmax_below_min_above_max_one_violation :
  fields site !! "count" = Some (VInt 5)
  ∧ min count_range = Some (Qc_of_Z 10) ∧ (Qc_of_Z 5 < Qc_of_Z 10)%Qc
  ∧ max count_range = Some (Qc_of_Z 1) ∧ (Qc_of_Z 1 < Qc_of_Z 5)%Qc
  ∧ violations (minmax_rule demo_str site count_range world0).2
    = [("count", "Value is less than minimum value: 10/1")]
  ∧ length (violations (minmax_rule demo_str site count_range world0).2) ≠ 2.
Proof.
  split; [by vm_compute|]. split; [done|]. split; [by vm_compute|].
  split; [done|]. split; [by vm_compute|]. split; [by vm_compute|].
  vm_compute. discriminate.
Qed.

(** The same rule and value, through the theorem. *)
Lemma minmax_rule_witness :
  (∀ lo, min count_range = Some lo → (Qc_of_Z 5 < lo)%Qc →
     minmax_rule demo_str site count_range world0
     = (world0, violation "count" "Value is less than minimum value: 10/1"))
  ∧ (∀ hi, max count_range = Some hi → (hi < Qc_of_Z 5)%Qc →
       (∀ lo, min count_range = Some lo → ¬ (Qc_of_Z 5 < lo)%Qc) →
     minmax_rule demo_str site count_range world0
     = (world0, violation "count" "Value is more than maximum value: 1/1"))
  ∧ length (violations (minmax_rule demo_str site count_range world0).2) ≤ 1.
Proof.
  apply (minmax_rule_one_chain demo_str site count_range world0 (VInt 5) (Qc_of_Z 5)).
  - by vm_compute.
  - reflexivity.
Defined.


(** The same two rulesets with the first not enforced: its failure is
    recorded and swallowed, the pass returns, and the second ruleset has
    run. *)
Lemma unenforced_failure_lets_later_rulesets_run :
  let pass := BaseValidator_clean demo_str demo_clock demo_clean demo_order
                demo_match demo_render demo_validate in
  (pass (two_rulesets_env false) "dcim.site" site world0).2 = Ok tt
  ∧ ticks (pass (two_rulesets_env false) "dcim.site" site world0).1 = 2
  ∧ valid <$> find_row ("SiteAudit", ("dcim", "site"), 1%Z, "name")
                (ledger (pass (two_rulesets_env false) "dcim.site" site world0).1)
    = Some false
  ∧ valid <$> find_row ("NamingAudit", ("dcim", "site"), 1%Z, "all")
                (ledger (pass (two_rulesets_env false) "dcim.site" site world0).1)
    = Some true.
Proof. cbn zeta. repeat split; by vm_compute. Qed.


(** ** The further properties on the example data *)



(** A run on a ledger that also holds rows of another ruleset and of
    another instance. *)
Lemma run_leaves_other_rows_alone_witness :
  let c := site_audit flags_unkeyed true in
  let w' := (run_ruleset demo_str demo_clock demo_clean demo_order c site world_mixed).1 in
  (∀ r, r ∈ ledger world_mixed → ¬ mine (ruleset_instance c site 0) r →
        find_row (row_key r) (ledger w') = Some r)
  ∧ (∀ r, r ∈ ledger w' → ¬ mine (ruleset_instance c site 0) r → r ∈ ledger world_mixed).
Proof.
  apply (run_leaves_other_rows_alone demo_str demo_clock demo_clean demo_order
           (site_audit flags_unkeyed true) site world_mixed).
  apply (bool_decide_unpack _). by vm_compute.
Defined.

(** The pass of the example environment on the same ledger. *)
Lemma pass_leaves_other_instances_alone_witness :
  let w' := (BaseValidator_clean demo_str demo_clock demo_clean demo_order
      demo_match demo_render demo_validate
               demo_env "dcim.site" site2 world_mixed).1 in
  unique_keys (ledger w')
  ∧ (∀ r, r ∈ ledger world_mixed →
          content_type r ≠ content_type_of site2 ∨ object_id r ≠ id site2 →
          find_row (row_key r) (ledger w') = Some r)
  ∧ (∀ r, r ∈ ledger w' →
          content_type r ≠ content_type_of site2 ∨ object_id r ≠ id site2 →
          r ∈ ledger world_mixed).
Proof.
  apply (pass_leaves_other_instances_alone demo_str demo_clock demo_clean demo_order
           demo_match demo_render demo_validate demo_env "dcim.site" site2 world_mixed).
  apply (bool_decide_unpack _). by vm_compute.
Defined.



(** A write on the count of the second site, which is 0. *)
Lemma audit_result_round_trip_witness :
  let self := ruleset_instance (site_audit (Ok tt) false) site2 1005 in
  let row := written_row demo_str self "too few" (Some "count") false in
  ((∀ a, Some "count" = Some a → a ≠ "" → is_Some (fields site2 !! a)) →
   ∃ w',
     audit_result demo_str demo_clean self "too few" (Some "count") false world_mixed
     = (w', match demo_clean row (ledger w') with
            | Some errors => Raise (ValidationError errors)
            | None => Ok tt
            end)
     ∧ find_row (row_key row) (ledger w') = Some row
     ∧ (∀ k, k ≠ row_key row → find_row k (ledger w') = find_row k (ledger world_mixed)))
  ∧ row = mk_row (self_key self (target (Some "count"))) 1005
            (validated_attribute_value row) "too few" false
  ∧ (∀ a v, Some "count" = Some a → a ≠ "" → fields site2 !! a = Some v →
       validated_attribute row = a
       ∧ validated_attribute_value row = if truthy v then Some (demo_str v) else None)
  ∧ (Some "count" = None ∨ Some "count" = Some "" →
       validated_attribute row = "all" ∧ validated_attribute_value row = None)
  ∧ (∀ a, Some "count" = Some a → a ≠ "" → fields site2 !! a = None →
       audit_result demo_str demo_clean self "too few" (Some "count") false world_mixed
       = (world_mixed, Raise (AttributeError a))).
Proof.
  apply (audit_result_round_trip demo_str demo_clean
           (ruleset_instance (site_audit (Ok tt) false) site2 1005)
           "too few" (Some "count") false world_mixed).
  apply (bool_decide_unpack _). by vm_compute.
Defined.



(** The count 5 of the first site against the limits 1 and 10. *)
Lemma minmax_rule_passes_iff_witness :
  (minmax_rule demo_str site count_limits world0 = (world0, Ok tt)
   ↔ ∃ x, as_number (VInt 5) = Some x
          ∧ (∀ lo, min count_limits = Some lo → (lo ≤ x)%Qc)
          ∧ (∀ hi, max count_limits = Some hi → (x ≤ hi)%Qc))
  ∧ (minmax_rule demo_str site count_limits world0 = (world0, Ok tt)
     ∨ ∃ msg, minmax_rule demo_str site count_limits world0
              = (world0, violation (field count_limits) msg)).
Proof.
  apply (minmax_rule_passes_iff demo_str site count_limits world0 (VInt 5)).
  by vm_compute.
Defined.

(** The context-aware pattern with a template engine that raises. *)
Lemma regex_rule_unusable_pattern_witness :
  regex_rule demo_match failing_render demo_validate site asn_pattern world0
  = ({| ledger := []; objects := [site];
        log := ["There was an error rendering the regular expression in the data validation rule 'asn pattern' and a ValidationError was raised!"];
        ticks := 0 |},
     violation "asn"
       "There was an error rendering the regular expression in the data validation rule 'asn pattern'. Either fix the validation rule or disable it in order to save this data.").
Proof.
  apply (regex_rule_unusable_pattern demo_match failing_render demo_validate
           site asn_pattern world0 VNone).
  - by vm_compute.
  - reflexivity.
  - reflexivity.
Defined.

(** A pass for a model whose registry entry holds no audit ruleset. *)
Lemma clean_without_registered_ruleset_witness :
  BaseValidator_clean demo_str demo_clock demo_clean demo_order demo_match demo_render demo_validate
    plain_env "dcim.site" site world0
  = (world0, Raise (KeyError "dcim.site")).
Proof.
  apply (clean_without_registered_ruleset demo_str demo_clock demo_clean demo_order
           demo_match demo_render demo_validate plain_env "dcim.site" site world0 world0).
  - reflexivity.
  - apply Forall_forall. apply (bool_decide_unpack _). by vm_compute.
Defined.

(** The inspection of the first site with the three rules of the example
    view. *)
Lemma validate_report_witness :
  let errors := foldl (λ errors c, collect (audit c site) errors)
                  (collect (violation "name" "Value does not conform to regex: site-") ∅)
                  (view_rules demo_view) in
  _validate demo_clock demo_full_clean demo_view site world0
  = ({| ledger := []; objects := [site]; log := []; ticks := 3 |},
     Ok {| report_model := "dcim.site"; report_id := 1;
           report_valid := bool_decide (errors = ∅); report_errors := errors |}).
Proof.
  apply (validate_report demo_clock demo_full_clean demo_view site world0 world0
           (violation "name" "Value does not conform to regex: site-")).
  - by vm_compute.
  - exact I.
  - repeat constructor.
Defined.

(** The inspection with a view whose second rule divides by zero. *)
Lemma validate_propagates_unexpected_witness :
  (violation "name" "Value does not conform to regex: site-"
   = Raise (OtherError "ZeroDivisionError") →
   _validate demo_clock demo_full_clean broken_view site world0
   = (world0, Raise (OtherError "ZeroDivisionError")))
  ∧ (∀ before c after,
       handled (violation "name" "Value does not conform to regex: site-") →
       view_rules broken_view = before ++ c :: after →
       Forall (λ c', handled (audit c' site)) before →
       audit c site = Raise (OtherError "ZeroDivisionError") →
       _validate demo_clock demo_full_clean broken_view site world0
       = ({| ledger := []; objects := [site]; log := [];
             ticks := S (length before) + 0 |}, Raise (OtherError "ZeroDivisionError"))).
Proof.
  apply (validate_propagates_unexpected demo_clock demo_full_clean broken_view site
           world0 world0 (violation "name" "Value does not conform to regex: site-")
           (OtherError "ZeroDivisionError")).
  - by vm_compute.
  - intros [].
Defined.

(** The entry for [name] in the report of the example view. *)
Lemma validate_later_rule_replaces_earlier_witness :
  ∃ w' report,
    _validate demo_clock demo_full_clean demo_view site world0 = (w', Ok report)
    ∧ report_errors report !! "name" = Some (Messages ["worse name"])
    ∧ report_valid report = false.
Proof.
  apply (validate_later_rule_replaces_earlier demo_clock demo_full_clean demo_view site
           world0 world0 (violation "name" "Value does not conform to regex: site-")
           [site_audit flags_name false]
           (site_audit (Raise (AuditError (ErrDict [("name", ["worse name"])]))) false)
           [site_audit (Raise (AuditError (ErrList []))) false]
           "name" (Messages ["worse name"])).
  - by vm_compute.
  - exact I.
  - repeat constructor.
  - reflexivity.
  - by vm_compute.
  - repeat constructor.
Defined.

(** The valid flag of the same report. *)
Lemma validate_valid_iff_witness :
  ∃ w' report,
    _validate demo_clock demo_full_clean demo_view site world0 = (w', Ok report)
    ∧ (report_valid report = true
       ↔ reported (violation "name" "Value does not conform to regex: site-") = ∅
         ∧ Forall (λ c, reported (audit c site) = ∅) (view_rules demo_view))
    ∧ reported (Raise (AuditError (ErrList []))) = ∅
    ∧ (∀ d, Forall (λ p, p.2 = []) d → reported (Raise (AuditError (ErrDict d))) = ∅).
Proof.
  apply (validate_valid_iff demo_clock demo_full_clean demo_view site world0 world0
           (violation "name" "Value does not conform to regex: site-")).
  - by vm_compute.
  - exact I.
  - repeat constructor.
Defined.
